(** * simple-iam, package [pkg/log]: the logging facade over zap

    A shallow embedding of [pkg/log/options.go] and [pkg/log/log.go] and
    the properties of the facade's specification.

    Layout: Go values and strings; the engine the facade drives
    (go.uber.org/zap v1.20.0, pinned in go.mod), as far as the facade
    reaches into it; [Options]; the loggers; then the theorems. *)

From Stdlib Require Import ZArith Ascii String.
From stdpp Require Import base option list strings.

Local Open Scope Z_scope.

(** ** Go strings

    A Go string is a sequence of bytes: [string], one [ascii] per byte. *)

Definition is_upper_byte (c : ascii) : bool :=
  let n := N_of_ascii c in ((65 <=? n) && (n <=? 90))%N.

Definition lower_byte (c : ascii) : ascii :=
  if is_upper_byte c then ascii_of_N (N_of_ascii c + 32) else c.

(** [strings.ToLower] and [bytes.ToLower].  ASCII capitals become small
    letters.  Runes outside ASCII are lower-cased by Go through the
    Unicode tables, which this model does not carry: their bytes are kept.
    Of those runes only U+0130 (bytes C4 B0) and U+212A (bytes E2 84 AA)
    lower-case to an ASCII letter, [i] and [k]; both are mapped here, so a
    comparison of the result with an ASCII word, the only use the package
    and the level parser make of it, comes out as in Go. *)
Fixpoint ToLower (s : string) : string :=
  match s with
  | EmptyString => EmptyString
  | String c s1 =>
      match s1 with
      | String c1 s2 =>
          if (N_of_ascii c =? 196)%N && (N_of_ascii c1 =? 176)%N
          then String "i" (ToLower s2)
          else
            match s2 with
            | String c2 s3 =>
                if (N_of_ascii c =? 226)%N && (N_of_ascii c1 =? 132)%N
                   && (N_of_ascii c2 =? 170)%N
                then String "k" (ToLower s3)
                else String (lower_byte c) (ToLower s1)
            | EmptyString => String (lower_byte c) (ToLower s1)
            end
      | EmptyString => String (lower_byte c) EmptyString
      end
  end.

(** An [error] built by [fmt.Errorf(format, arg)]: the format and its
    argument, not yet rendered. *)
Record error := Errorf { err_format : string; err_arg : string }.

(** Equality of two strings up to the case of ASCII letters, letter by
    letter: the reading of "case-insensitively" the properties use. *)
Definition same_letter (c d : ascii) : Prop :=
  c = d \/ lower_byte c = d \/ c = lower_byte d.

Inductive fold_eq : string -> string -> Prop :=
| fold_eq_nil : fold_eq "" ""
| fold_eq_cons c d s t :
    same_letter c d -> fold_eq s t -> fold_eq (String c s) (String d t).


(** ** Go values

    [any] is an [interface{}] value by its dynamic type, as far as the
    package tells types apart: the type assertions of [handleFields] ask
    for [zapcore.Field] and for [string], nothing else.  [Field] is
    [zapcore.Field]; [mkField key v] is the field [zap.Any(key, v)], whose
    type tag zap derives from the dynamic type of [v]. *)
Inductive any : Type :=
| VNil
| VString (s : string)
| VInt (n : Z)
| VBool (b : bool)
| VOther (type : string) (repr : string)
| VField (f : Field)
with Field : Type :=
| mkField (Key : string) (Interface : any).

Definition Key (f : Field) : string := let 'mkField k _ := f in k.
Definition Interface (f : Field) : any := let 'mkField _ v := f in v.

(** [[]byte] and the conversion [string(p)]. *)
Definition bytes := list ascii.

Fixpoint string_of_bytes (p : bytes) : string :=
  match p with
  | [] => EmptyString
  | c :: p' => String c (string_of_bytes p')
  end.

(** What [panic] is given: a string ([panic(msg)] in the engine), an
    error ([panic(err)] in [New]), or a run-time error. *)
Inductive panic_value :=
| PString (s : string)
| PError (e : error)
| PRuntime (s : string).

(** What a call comes to: it returns, it panics, or the process exits. *)
Inductive outcome (A : Type) : Type :=
| Ret (a : A)
| Panicked (v : panic_value)
| Exited (code : Z).
Arguments Ret {A} a.
Arguments Panicked {A} v.
Arguments Exited {A} code.

(** Computations over a state [S]; the state outlives a panic, since what
    was written before it stays written. *)
Definition M (S A : Type) : Type := S -> outcome A * S.

Definition ret {S A} (a : A) : M S A := fun s => (Ret a, s).

Definition bind {S A B} (m : M S A) (k : A -> M S B) : M S B :=
  fun s =>
    match m s with
    | (Ret a, s') => k a s'
    | (Panicked v, s') => (Panicked v, s')
    | (Exited c, s') => (Exited c, s')
    end.

Definition panic {S A} (v : panic_value) : M S A := fun s => (Panicked v, s).
Definition exit {S A} (code : Z) : M S A := fun s => (Exited code, s).
Definition gets {S A} (f : S -> A) : M S A := fun s => (Ret (f s), s).
Definition modify {S} (f : S -> S) : M S unit := fun s => (Ret tt, f s).

Notation "x <- m ;; k" := (bind m (fun x => k))
  (at level 100, m at next level, right associativity).
Notation "m ;;; k" := (bind m (fun _ => k))
  (at level 100, right associativity).

(** ** The engine: package zapcore

    zap is a dependency of the repository, not part of it.  The two
    modules below follow its sources at v1.20.0 for what the facade calls:
    levels and their parsing, the build of a logger from a [Config], the
    check of an entry against the level, the write, and the terminal
    actions of the levels DPanic, Panic and Fatal.  Left out: time,
    encoding to bytes, and sampling, which drops messages repeated within
    one second of wall-clock time. *)
Module zapcore.

(** [type Level int8]; the conversion [zapcore.Level(n)] of an [int]
    keeps the low eight bits. *)
Definition Level := Z.

Definition DebugLevel : Level := -1.
Definition InfoLevel : Level := 0.
Definition WarnLevel : Level := 1.
Definition ErrorLevel : Level := 2.
Definition DPanicLevel : Level := 3.
Definition PanicLevel : Level := 4.
Definition FatalLevel : Level := 5.

Definition Level_of_int (n : Z) : Level := (n + 128) mod 256 - 128.

(** [func (l Level) Enabled(lvl Level) bool { return lvl >= l }] *)
Definition Enabled (l lvl : Level) : bool := l <=? lvl.

(** [unmarshalText]: the exact spellings. *)
Definition unmarshalText (text : string) : option Level :=
  if decide (text = "debug" \/ text = "DEBUG") then Some DebugLevel
  else if decide (text = "info" \/ text = "INFO" \/ text = "") then Some InfoLevel
  else if decide (text = "warn" \/ text = "WARN") then Some WarnLevel
  else if decide (text = "error" \/ text = "ERROR") then Some ErrorLevel
  else if decide (text = "dpanic" \/ text = "DPANIC") then Some DPanicLevel
  else if decide (text = "panic" \/ text = "PANIC") then Some PanicLevel
  else if decide (text = "fatal" \/ text = "FATAL") then Some FatalLevel
  else None.

(** [Level.UnmarshalText]: the text as it is, then lower-cased; on
    failure the level is left as it was and the error names the text. *)
Definition UnmarshalText (text : string) : error + Level :=
  match unmarshalText text with
  | Some l => inr l
  | None =>
      match unmarshalText (ToLower text) with
      | Some l => inr l
      | None => inl (Errorf "unrecognized level: %q" text)
      end
  end.

Inductive LevelEncoder := CapitalLevelEncoder | CapitalColorLevelEncoder.
Inductive CallerEncoder := ShortCallerEncoder.
Inductive NameEncoder := FullNameEncoder.

(** Modelled from the spec: [timeEncoder] and
    [milliSecondsDurationEncoder], the package's time and duration
    encoders, are declared in a file of the package that is not under
    src/ and the specification does not describe them; the configuration
    only carries them, so each is a token. *)
Inductive TimeEncoder := timeEncoder.
Inductive DurationEncoder := milliSecondsDurationEncoder.

Definition DefaultLineEnding : string := String "010" EmptyString.

Record EncoderConfig := {
  MessageKey : string;
  LevelKey : string;
  TimeKey : string;
  NameKey : string;
  CallerKey : string;
  StacktraceKey : string;
  LineEnding : string;
  EncodeLevel : LevelEncoder;
  EncodeTime : TimeEncoder;
  EncodeDuration : DurationEncoder;
  EncodeCaller : CallerEncoder;
  EncodeName : option NameEncoder
}.

(** An entry as the core sees it.  The time is left out; [Caller] and
    [Stack] say whether the call site and a stack trace were captured. *)
Record Entry := {
  Level_ : Level;
  LoggerName : string;
  Message : string;
  Caller : bool;
  Stack : bool
}.

(** The core [NewCore(enc, sink, level)] with the fields bound by
    [With].  Of the sampler that [Config.Sampling] wraps around it only
    the two rates are kept. *)
Record Core := {
  enc : string;
  encoderConfig : EncoderConfig;
  out : list string;
  LevelEnabler : Level;
  sampler : option (Z * Z);
  context : list Field
}.

Definition Core_Enabled (c : Core) (lvl : Level) : bool :=
  Enabled (LevelEnabler c) lvl.

Definition Core_With (c : Core) (fields : list Field) : Core :=
  {| enc := enc c; encoderConfig := encoderConfig c; out := out c;
     LevelEnabler := LevelEnabler c; sampler := sampler c;
     context := context c ++ fields |}.

Inductive CheckWriteAction :=
| WriteThenNoop | WriteThenPanic | WriteThenFatal.

Record CheckedEntry := {
  ce_Entry : Entry;
  should : CheckWriteAction;
  cores : list Core
}.

(** [CheckedEntry.AddCore] and [CheckedEntry.Should], on a possibly
    nil receiver. *)
Definition AddCore (ce : option CheckedEntry) (ent : Entry) (c : Core)
  : option CheckedEntry :=
  match ce with
  | None => Some {| ce_Entry := ent; should := WriteThenNoop; cores := [c] |}
  | Some e => Some {| ce_Entry := ce_Entry e; should := should e;
                      cores := cores e ++ [c] |}
  end.

Definition Should (ce : option CheckedEntry) (ent : Entry)
    (a : CheckWriteAction) : option CheckedEntry :=
  match ce with
  | None => Some {| ce_Entry := ent; should := a; cores := [] |}
  | Some e => Some {| ce_Entry := ce_Entry e; should := a; cores := cores e |}
  end.

(** [ioCore.Check] *)
Definition Core_Check (c : Core) (ent : Entry) (ce : option CheckedEntry)
  : option CheckedEntry :=
  if Core_Enabled c (Level_ ent) then AddCore ce ent c else ce.

(** One record as a sink receives it: the entry and its fields, the
    core's bound fields first. *)
Record Line := { line_entry : Entry; line_fields : list Field }.

(** [CheckedEntry.Write]: every core writes the entry, then the
    terminal action runs. *)
Definition Write (ce : CheckedEntry) (fields : list Field)
  : M (list Line) unit :=
  modify (fun w => w ++ map (fun c => {| line_entry := ce_Entry ce;
                                           line_fields := context c ++ fields |})
                            (cores ce)) ;;;
  match should ce with
  | WriteThenPanic => panic (PString (Message (ce_Entry ce)))
  | WriteThenFatal => exit 1
  | WriteThenNoop => ret tt
  end.

End zapcore.

(** ** The engine: package zap *)
Module zap.

Definition InfoLevel := zapcore.InfoLevel.

(** [zap.Any(key, value)] *)
Definition Any (key : string) (value : any) : Field := mkField key value.

Record SamplingConfig := { Initial : Z; Thereafter : Z }.

(** [zap.Config], without [InitialFields], which the package leaves
    empty.  [Level] is the level the [AtomicLevel] holds; nothing in the
    package changes it after [NewAtomicLevelAt]. *)
Record Config := {
  Level : zapcore.Level;
  Development : bool;
  DisableCaller : bool;
  DisableStacktrace : bool;
  Sampling : option SamplingConfig;
  Encoding : string;
  EncoderConfig : zapcore.EncoderConfig;
  OutputPaths : list string;
  ErrorOutputPaths : list string
}.

Definition NewAtomicLevelAt (l : zapcore.Level) : zapcore.Level := l.

Record Logger := {
  core : zapcore.Core;
  development : bool;
  addCaller : bool;
  name : string;
  errorOutput : list string;
  addStack : zapcore.Level;
  callerSkip : Z
}.

(** An [Option] changes the logger it is applied to. *)
Definition Option := Logger -> Logger.

Definition WrapCore (f : zapcore.Core -> zapcore.Core) : Option := fun log =>
  {| core := f (core log); development := development log;
     addCaller := addCaller log; name := name log;
     errorOutput := errorOutput log; addStack := addStack log;
     callerSkip := callerSkip log |}.

Definition ErrorOutput (w : list string) : Option := fun log =>
  {| core := core log; development := development log;
     addCaller := addCaller log; name := name log;
     errorOutput := w; addStack := addStack log;
     callerSkip := callerSkip log |}.

Definition Development_ : Option := fun log =>
  {| core := core log; development := true;
     addCaller := addCaller log; name := name log;
     errorOutput := errorOutput log; addStack := addStack log;
     callerSkip := callerSkip log |}.

Definition AddCaller : Option := fun log =>
  {| core := core log; development := development log;
     addCaller := true; name := name log;
     errorOutput := errorOutput log; addStack := addStack log;
     callerSkip := callerSkip log |}.

Definition AddStacktrace (lvl : zapcore.Level) : Option := fun log =>
  {| core := core log; development := development log;
     addCaller := addCaller log; name := name log;
     errorOutput := errorOutput log; addStack := lvl;
     callerSkip := callerSkip log |}.

Definition AddCallerSkip (skip : Z) : Option := fun log =>
  {| core := core log; development := development log;
     addCaller := addCaller log; name := name log;
     errorOutput := errorOutput log; addStack := addStack log;
     callerSkip := callerSkip log + skip |}.

Definition WithOptions (log : Logger) (opts : list Option) : Logger :=
  fold_left (fun l (o : Option) => o l) opts log.

(** [zap.New(core, options...)] *)
Definition New (c : zapcore.Core) (opts : list Option) : Logger :=
  WithOptions {| core := c; development := false; addCaller := false;
                 name := ""; errorOutput := ["stderr"];
                 addStack := zapcore.FatalLevel + 1; callerSkip := 0 |} opts.

(** [newEncoder]: only the encoders zap registers itself are there, the
    package registers none. *)
Definition newEncoder (name : string) : error + string :=
  if decide (name = "") then inl (Errorf "no encoder name specified" "")
  else if decide (name = "console" \/ name = "json") then inr name
  else inl (Errorf "no encoder registered for name %q" name).

(** [zap.Open]: "stdout" and "stderr" are always there; whether any
    other path opens is [fs]'s answer.  The error names the first path
    that fails (zap joins one such error for each). *)
Definition opens (fs : string -> bool) (path : string) : bool :=
  bool_decide (path = "stdout" \/ path = "stderr") || fs path.

Fixpoint Open (fs : string -> bool) (paths : list string)
  : error + list string :=
  match paths with
  | [] => inr []
  | p :: ps =>
      if opens fs p
      then match Open fs ps with
           | inr l => inr (p :: l)
           | inl e => inl e
           end
      else inl (Errorf "couldn't open sink %q" p)
  end.

(** [Config.buildOptions] *)
Definition buildOptions (cfg : Config) (errSink : list string) : list Option :=
  [ErrorOutput errSink]
  ++ (if Development cfg then [Development_] else [])
  ++ (if negb (DisableCaller cfg) then [AddCaller] else [])
  ++ (if negb (DisableStacktrace cfg)
      then [AddStacktrace (if Development cfg then zapcore.WarnLevel
                           else zapcore.ErrorLevel)]
      else [])
  ++ match Sampling cfg with
     | Some scfg =>
         [WrapCore (fun c =>
            {| zapcore.enc := zapcore.enc c;
               zapcore.encoderConfig := zapcore.encoderConfig c;
               zapcore.out := zapcore.out c;
               zapcore.LevelEnabler := zapcore.LevelEnabler c;
               zapcore.sampler := Some (Initial scfg, Thereafter scfg);
               zapcore.context := zapcore.context c |})]
     | None => []
     end.

(** [Config.Build(opts...)]: the encoder, then the sinks, then the
    logger, the caller's options applied last. *)
Definition Build (fs : string -> bool) (cfg : Config) (opts : list Option)
  : error + Logger :=
  match newEncoder (Encoding cfg) with
  | inl e => inl e
  | inr enc =>
      match Open fs (OutputPaths cfg) with
      | inl e => inl e
      | inr sink =>
          match Open fs (ErrorOutputPaths cfg) with
          | inl e => inl e
          | inr errSink =>
              let log :=
                New {| zapcore.enc := enc;
                       zapcore.encoderConfig := EncoderConfig cfg;
                       zapcore.out := sink;
                       zapcore.LevelEnabler := Level cfg;
                       zapcore.sampler := None;
                       zapcore.context := [] |}
                    (buildOptions cfg errSink) in
              inr (WithOptions log opts)
          end
      end
  end.

(** [Logger.Core] *)
Definition Core (log : Logger) : zapcore.Core := core log.

(** [Logger.Named] *)
Definition Named (log : Logger) (s : string) : Logger :=
  if decide (s = "") then log
  else {| core := core log; development := development log;
          addCaller := addCaller log;
          name := if decide (name log = "") then s
                  else name log +:+ "." +:+ s;
          errorOutput := errorOutput log; addStack := addStack log;
          callerSkip := callerSkip log |}.

(** [Logger.With] *)
Definition With (log : Logger) (fields : list Field) : Logger :=
  match fields with
  | [] => log
  | _ => {| core := zapcore.Core_With (core log) fields;
            development := development log; addCaller := addCaller log;
            name := name log; errorOutput := errorOutput log;
            addStack := addStack log; callerSkip := callerSkip log |}
  end.

(** [Logger.check], and [Logger.Check], which is the same.  A level
    below DPanic that the core does not enable gives nil at once; the
    levels from DPanic up go on, since they may carry a terminal
    action, and get one even when no core will write. *)
Definition check (log : Logger) (lvl : zapcore.Level) (msg : string)
  : option zapcore.CheckedEntry :=
  if (lvl <? zapcore.DPanicLevel) && negb (zapcore.Core_Enabled (core log) lvl)
  then None
  else
    let ent := {| zapcore.Level_ := lvl; zapcore.LoggerName := name log;
                  zapcore.Message := msg; zapcore.Caller := false;
                  zapcore.Stack := false |} in
    let ce := zapcore.Core_Check (core log) ent None in
    let willWrite := bool_decide (ce <> None) in
    let ce :=
      if lvl =? zapcore.PanicLevel
      then zapcore.Should ce ent zapcore.WriteThenPanic
      else if lvl =? zapcore.FatalLevel
      then zapcore.Should ce ent zapcore.WriteThenFatal
      else if lvl =? zapcore.DPanicLevel
      then (if development log
            then zapcore.Should ce ent zapcore.WriteThenPanic else ce)
      else ce in
    if willWrite
    then
      match ce with
      | Some e =>
          Some {| zapcore.ce_Entry :=
                    {| zapcore.Level_ := lvl;
                       zapcore.LoggerName := name log;
                       zapcore.Message := msg;
                       zapcore.Caller := addCaller log;
                       zapcore.Stack := zapcore.Enabled (addStack log) lvl |};
                  zapcore.should := zapcore.should e;
                  zapcore.cores := zapcore.cores e |}
      | None => None
      end
    else ce.

Definition Check := check.

(** The leveled methods: [if ce := log.check(lvl, msg); ce != nil
    { ce.Write(fields...) }]. *)
Definition logAt (lvl : zapcore.Level) (log : Logger) (msg : string)
    (fields : list Field) : M (list zapcore.Line) unit :=
  match check log lvl msg with
  | Some ce => zapcore.Write ce fields
  | None => ret tt
  end.

Definition Debug := logAt zapcore.DebugLevel.
Definition Info := logAt zapcore.InfoLevel.
Definition Warn := logAt zapcore.WarnLevel.
Definition Error := logAt zapcore.ErrorLevel.
Definition DPanic := logAt zapcore.DPanicLevel.
Definition Panic := logAt zapcore.PanicLevel.
Definition Fatal := logAt zapcore.FatalLevel.

End zap.

(** ** pkg/log/options.go *)

Definition consoleFormat : string := "console".
Definition jsonFormat : string := "json".

Record Options := {
  OutputPaths : list string;
  ErrorOutputPaths : list string;
  Level : string;
  Format : string;
  DisableCaller : bool;
  DisableStacktrace : bool;
  EnableColor : bool;
  Development : bool;
  Name : string
}.

(** [zapcore.InfoLevel.String()] *)
Definition InfoLevel_String : string := "info".

Definition NewOptions : Options :=
  {| OutputPaths := ["stdout"];
     ErrorOutputPaths := ["stderr"];
     Level := InfoLevel_String;
     Format := consoleFormat;
     DisableCaller := false;
     DisableStacktrace := false;
     EnableColor := false;
     Development := false;
     Name := "" |}.

(** ** pkg/log/log.go: the objects *)

Record infoLogger := {
  level : zapcore.Level;
  log : zap.Logger
}.

(** [type zapLogger struct { zapLogger *zap.Logger; infoLogger }].  The
    engine's loggers are never changed once made ([With], [Named] and
    [WithOptions] return copies), so a [*zap.Logger] is its value. *)
Record zapLogger := {
  zapLogger_ : zap.Logger;
  infoLogger_ : infoLogger
}.

(** A [*zapLogger] is an address in the heap of facade objects. *)
Definition loc := nat.

(** An [InfoLogger] as [V] hands it out: a new [*infoLogger], or the one
    [*noopInfoLogger] the package keeps in [disabledInfoLogger]. *)
Inductive InfoLogger :=
| ptr_infoLogger (l : infoLogger)
| disabledInfoLogger.

(** The program state: what the sinks received, oldest first; the facade
    objects by address; the package variable [std]; the engine's global
    logger and the logger the standard library's [log] output is
    redirected to ([None]: as the process starts). *)
Record World := {
  sinks : list zapcore.Line;
  heap : list zapLogger;
  std : loc;
  globalL : option zap.Logger;
  stdLog : option zap.Logger
}.

Definition set_sinks (s : list zapcore.Line) (w : World) : World :=
  {| sinks := s; heap := heap w; std := std w;
     globalL := globalL w; stdLog := stdLog w |}.

Definition set_heap (h : list zapLogger) (w : World) : World :=
  {| sinks := sinks w; heap := h; std := std w;
     globalL := globalL w; stdLog := stdLog w |}.

(** An engine call, run on the sinks of the world. *)
Definition engine {A} (m : M (list zapcore.Line) A) : M World A :=
  fun w => let '(o, s) := m (sinks w) in (o, set_sinks s w).

Definition nil_dereference : panic_value :=
  PRuntime "invalid memory address or nil pointer dereference".

(** [*p], [&zapLogger{...}] and [*p = v]. *)
Definition deref (p : loc) : M World zapLogger :=
  fun w => match heap w !! p with
           | Some o => (Ret o, w)
           | None => (Panicked nil_dereference, w)
           end.

Definition alloc (o : zapLogger) : M World loc :=
  fun w => (Ret (length (heap w)), set_heap (heap w ++ [o]) w).

Definition store (p : loc) (o : zapLogger) : M World unit :=
  fun w => match heap w !! p with
           | Some _ => (Ret tt, set_heap (<[p := o]> (heap w)) w)
           | None => (Panicked nil_dereference, w)
           end.

(** [zap.RedirectStdLog] and [zap.ReplaceGlobals] *)
Definition RedirectStdLog (l : zap.Logger) : M World unit :=
  modify (fun w => {| sinks := sinks w; heap := heap w; std := std w;
                      globalL := globalL w; stdLog := Some l |}).

Definition ReplaceGlobals (l : zap.Logger) : M World unit :=
  modify (fun w => {| sinks := sinks w; heap := heap w; std := std w;
                      globalL := Some l; stdLog := stdLog w |}).

(** A [context.Context] (not nil, as package context requires) is the
    chain of its key/value pairs, innermost first.  [Value ctx key] is
    [ctx.Value(key)] for a key of type [string], which the three keys of
    the package are. *)
Definition Context := list (any * any).

Fixpoint Value (ctx : Context) (key : string) : any :=
  match ctx with
  | [] => VNil
  | (VString k, v) :: ctx' => if decide (k = key) then v else Value ctx' key
  | _ :: ctx' => Value ctx' key
  end.

Definition KeyRequestID : string := "requestID".
Definition KeyUsername : string := "username".
Definition KeyWatcherName : string := "watcher".

(** ** pkg/log/options.go: the methods *)
Module Options.

(** [Validate]: [errs] grows by [append], in the order of the checks. *)
Definition Validate (o : Options) : list error :=
  let errs := [] in
  let errs :=
    match zapcore.UnmarshalText (Level o) with
    | inl err => errs ++ [err]
    | inr _ => errs
    end in
  let format := ToLower (Format o) in
  let errs :=
    if bool_decide (format <> consoleFormat) && bool_decide (format <> jsonFormat)
    then errs ++ [Errorf "not a valid log format: %q" (Format o)]
    else errs in
  errs.

(** The level [Build] and [New] arrive at: [zapLevel] starts as the zero
    level and is set to [InfoLevel] when the text does not parse. *)
Definition zapLevel (o : Options) : zapcore.Level :=
  match zapcore.UnmarshalText (Level o) with
  | inl _ => zapcore.InfoLevel
  | inr l => l
  end.

Definition encodeLevel (o : Options) : zapcore.LevelEncoder :=
  if bool_decide (Format o = consoleFormat) && EnableColor o
  then zapcore.CapitalColorLevelEncoder
  else zapcore.CapitalLevelEncoder.

(** The [zapConfig] of [Build], options.go lines 80 to 106. *)
Definition zapConfig (o : Options) : zap.Config :=
  {| zap.Level := zap.NewAtomicLevelAt (zapLevel o);
     zap.Development := Development o;
     zap.DisableCaller := Development o;
     zap.DisableStacktrace := DisableStacktrace o;
     zap.Sampling := Some {| zap.Initial := 100; zap.Thereafter := 100 |};
     zap.Encoding := Format o;
     zap.EncoderConfig :=
       {| zapcore.MessageKey := "message";
          zapcore.LevelKey := "level";
          zapcore.NameKey := "logger";
          zapcore.StacktraceKey := "stacktrace";
          zapcore.CallerKey := "caller";
          zapcore.TimeKey := "timestamp";
          zapcore.LineEnding := zapcore.DefaultLineEnding;
          zapcore.EncodeLevel := encodeLevel o;
          zapcore.EncodeTime := zapcore.timeEncoder;
          zapcore.EncodeDuration := zapcore.milliSecondsDurationEncoder;
          zapcore.EncodeCaller := zapcore.ShortCallerEncoder;
          zapcore.EncodeName := Some zapcore.FullNameEncoder |};
     zap.OutputPaths := OutputPaths o;
     zap.ErrorOutputPaths := ErrorOutputPaths o |}.

(** [Build]; [fs] says which sink paths open. *)
Definition Build (fs : string -> bool) (o : Options) : M World (option error) :=
  match zap.Build fs (zapConfig o) [zap.AddStacktrace zapcore.PanicLevel] with
  | inl err => ret (Some err)
  | inr logger =>
      RedirectStdLog (zap.Named logger (Name o)) ;;;
      ReplaceGlobals logger ;;;
      ret None
  end.

End Options.

(** ** pkg/log/log.go: the functions *)

(** The loop of [handleFields], log.go lines 123 to 150: [i] is the index,
    [fields] what has been gathered.  Each turn either leaves the loop or
    moves [i] on by two, so [fuel] turns are enough from [length args]
    on.  An index outside [args] panics in Go. *)
Fixpoint handleFields_loop (fuel : nat) (l : zap.Logger) (args : list any)
    (i : nat) (fields : list Field) : M World (list Field) :=
  match fuel with
  | O => ret fields
  | S fuel' =>
      if decide (i < length args)%nat then
        match args !! i with
        | None => panic (PRuntime "index out of range")
        | Some (VField f) =>
            engine (zap.DPanic l "strongly-typed Zap Field passed to logr"
                      [zap.Any "zap field" (VField f)]) ;;;
            ret fields
        | Some key =>
            if decide (i = length args - 1)%nat then
              engine (zap.DPanic l
                        "odd number of arguments passed as key-value pairs for logging"
                        [zap.Any "ignored key" key]) ;;;
              ret fields
            else
              match args !! (i + 1)%nat with
              | None => panic (PRuntime "index out of range")
              | Some val =>
                  match key with
                  | VString keyStr =>
                      handleFields_loop fuel' l args (i + 2)
                        (fields ++ [zap.Any keyStr val])
                  | _ =>
                      engine (zap.DPanic l
                                "non-string key argument passed to logging, ignoring all later arguments"
                                [zap.Any "invalid key" key]) ;;;
                      ret fields
                  end
              end
        end
      else ret fields
  end.

Definition handleFields (l : zap.Logger) (args : list any)
    (additional : list Field) : M World (list Field) :=
  if decide (length args = 0%nat) then ret additional
  else
    fields <- handleFields_loop (length args) l args 0 [] ;;
    ret (fields ++ additional).

(** The methods of the interface [InfoLogger] that the properties are
    about ([Infof], which formats with [fmt.Sprintf], is left out). *)
Class InfoLoggerMethods (T : Type) := {
  Enabled : T -> bool;
  Info : T -> string -> list Field -> M World unit;
  Infow : T -> string -> list any -> M World unit
}.

Module infoLogger.

Definition Enabled (l : infoLogger) : bool := true.

Definition Info (l : infoLogger) (msg : string) (fields : list Field)
  : M World unit :=
  match zap.Check (log l) (level l) msg with
  | Some checkedEntry => engine (zapcore.Write checkedEntry fields)
  | None => ret tt
  end.

Definition Infow (l : infoLogger) (msg : string) (keysAndValues : list any)
  : M World unit :=
  match zap.Check (log l) (level l) msg with
  | Some checkedEntry =>
      fields <- handleFields (log l) keysAndValues [] ;;
      engine (zapcore.Write checkedEntry fields)
  | None => ret tt
  end.

End infoLogger.

Inductive noopInfoLogger := noopInfoLogger_zero.

Module noopInfoLogger.

Definition Enabled (l : noopInfoLogger) : bool := false.
Definition Info (l : noopInfoLogger) (_ : string) (_ : list Field)
  : M World unit := ret tt.
Definition Infow (l : noopInfoLogger) (_ : string) (_ : list any)
  : M World unit := ret tt.

End noopInfoLogger.

#[export] Instance infoLogger_methods : InfoLoggerMethods infoLogger :=
  {| Enabled := infoLogger.Enabled;
     Info := infoLogger.Info;
     Infow := infoLogger.Infow |}.

#[export] Instance noopInfoLogger_methods : InfoLoggerMethods noopInfoLogger :=
  {| Enabled := noopInfoLogger.Enabled;
     Info := noopInfoLogger.Info;
     Infow := noopInfoLogger.Infow |}.

(** A call through the interface goes to the method of the dynamic type. *)
#[export] Instance InfoLogger_methods : InfoLoggerMethods InfoLogger :=
  {| Enabled i :=
       match i with
       | ptr_infoLogger l => Enabled l
       | disabledInfoLogger => Enabled noopInfoLogger_zero
       end;
     Info i msg fields :=
       match i with
       | ptr_infoLogger l => Info l msg fields
       | disabledInfoLogger => Info noopInfoLogger_zero msg fields
       end;
     Infow i msg kvs :=
       match i with
       | ptr_infoLogger l => Infow l msg kvs
       | disabledInfoLogger => Infow noopInfoLogger_zero msg kvs
       end |}.

Definition NewLogger (l : zap.Logger) : M World loc :=
  alloc {| zapLogger_ := l;
           infoLogger_ := {| log := l; level := zap.InfoLevel |} |}.

(** The [loggerConfig] of [New], log.go lines 194 to 207. *)
Definition loggerConfig (opts : Options) : zap.Config :=
  {| zap.Level := zap.NewAtomicLevelAt (Options.zapLevel opts);
     zap.Development := Development opts;
     zap.DisableCaller := DisableCaller opts;
     zap.DisableStacktrace := DisableStacktrace opts;
     zap.Sampling := Some {| zap.Initial := 100; zap.Thereafter := 100 |};
     zap.Encoding := Format opts;
     zap.EncoderConfig :=
       {| zapcore.MessageKey := "message";
          zapcore.LevelKey := "level";
          zapcore.TimeKey := "timestamp";
          zapcore.NameKey := "logger";
          zapcore.CallerKey := "caller";
          zapcore.StacktraceKey := "stacktrace";
          zapcore.LineEnding := zapcore.DefaultLineEnding;
          zapcore.EncodeLevel := Options.encodeLevel opts;
          zapcore.EncodeTime := zapcore.timeEncoder;
          zapcore.EncodeDuration := zapcore.milliSecondsDurationEncoder;
          zapcore.EncodeCaller := zapcore.ShortCallerEncoder;
          zapcore.EncodeName := None |};
     zap.OutputPaths := OutputPaths opts;
     zap.ErrorOutputPaths := ErrorOutputPaths opts |}.

(** [New]; a nil [opts] is [None]. *)
Definition New (fs : string -> bool) (opts : option Options) : M World loc :=
  let opts := match opts with Some o => o | None => NewOptions end in
  match zap.Build fs (loggerConfig opts)
          [zap.AddStacktrace zapcore.PanicLevel; zap.AddCallerSkip 1] with
  | inl err => panic (PError err)
  | inr l =>
      logger <- alloc {| zapLogger_ := zap.Named l (Name opts);
                         infoLogger_ := {| level := zap.InfoLevel; log := l |} |} ;;
      RedirectStdLog l ;;;
      ret logger
  end.

(** [Init]: [std = New(opts)]; the mutex orders concurrent calls and has
    no part in a single one. *)
Definition Init (fs : string -> bool) (opts : option Options) : M World unit :=
  p <- New fs opts ;;
  modify (fun w => {| sinks := sinks w; heap := heap w; std := p;
                      globalL := globalL w; stdLog := stdLog w |}).

(** The methods of [*zapLogger] on the receiver's address.  The
    formatted and the key/value methods ([Infof], [Infow], [Errorw], ...)
    hand their arguments to zap's SugaredLogger and [Flush] to [Sync];
    they are not modelled. *)
Module zapLogger.

Definition V (l : loc) (level : Z) : M World InfoLogger :=
  o <- deref l ;;
  let lvl := zapcore.Level_of_int level in
  if zapcore.Core_Enabled (zap.Core (zapLogger_ o)) lvl
  then ret (ptr_infoLogger {| level := lvl; log := zapLogger_ o |})
  else ret disabledInfoLogger.

Definition Write (l : loc) (p : bytes) : M World (Z * option error) :=
  o <- deref l ;;
  engine (zap.Info (zapLogger_ o) (string_of_bytes p) []) ;;;
  ret (Z.of_nat (length p), None).

Definition WithValues (l : loc) (keysAndValues : list any) : M World loc :=
  o <- deref l ;;
  fields <- handleFields (zapLogger_ o) keysAndValues [] ;;
  let newLogger := zap.With (zapLogger_ o) fields in
  NewLogger newLogger.

Definition WithName (l : loc) (name : string) : M World loc :=
  o <- deref l ;;
  let newLogger := zap.Named (zapLogger_ o) name in
  NewLogger newLogger.

Definition Debug (l : loc) (msg : string) (fields : list Field) : M World unit :=
  o <- deref l ;; engine (zap.Debug (zapLogger_ o) msg fields).

Definition Info (l : loc) (msg : string) (fields : list Field) : M World unit :=
  o <- deref l ;; engine (zap.Info (zapLogger_ o) msg fields).

Definition Warn (l : loc) (msg : string) (fields : list Field) : M World unit :=
  o <- deref l ;; engine (zap.Warn (zapLogger_ o) msg fields).

Definition Error (l : loc) (msg : string) (fields : list Field) : M World unit :=
  o <- deref l ;; engine (zap.Error (zapLogger_ o) msg fields).

Definition Panic (l : loc) (msg : string) (fields : list Field) : M World unit :=
  o <- deref l ;; engine (zap.Panic (zapLogger_ o) msg fields).

Definition Fatal (l : loc) (msg : string) (fields : list Field) : M World unit :=
  o <- deref l ;; engine (zap.Fatal (zapLogger_ o) msg fields).

(** [copy := *l; return &copy] *)
Definition clone (l : loc) : M World loc :=
  copy <- deref l ;;
  alloc copy.

(** [ng.zapLogger = ng.zapLogger.With(f)] *)
Definition set_zapLogger_With (ng : loc) (f : Field) : M World unit :=
  o <- deref ng ;;
  store ng {| zapLogger_ := zap.With (zapLogger_ o) [f];
              infoLogger_ := infoLogger_ o |}.

Definition L (l : loc) (ctx : Context) : M World loc :=
  ng <- clone l ;;
  (match Value ctx KeyRequestID with
   | VNil => ret tt
   | requestID => set_zapLogger_With ng (zap.Any KeyRequestID requestID)
   end) ;;;
  (match Value ctx KeyUsername with
   | VNil => ret tt
   | userName => set_zapLogger_With ng (zap.Any KeyUsername userName)
   end) ;;;
  (match Value ctx KeyWatcherName with
   | VNil => ret tt
   | wathcherName => set_zapLogger_With ng (zap.Any KeyWatcherName wathcherName)
   end) ;;;
  ret ng.

End zapLogger.

(** The package-level functions go to [std]. *)
Definition V (level : Z) : M World InfoLogger :=
  p <- gets std ;; zapLogger.V p level.

Definition WithValues (keysAndValues : list any) : M World loc :=
  p <- gets std ;; zapLogger.WithValues p keysAndValues.

Definition L (ctx : Context) : M World loc :=
  p <- gets std ;; zapLogger.L p ctx.

(** ** Notions the properties are stated with *)

(** A word of small ASCII letters other than [i] and [k]: "console" and
    "json" are such words. *)
Fixpoint plain_lower (w : string) : bool :=
  match w with
  | EmptyString => true
  | String d t =>
      let n := N_of_ascii d in
      ((97 <=? n) && (n <=? 122) && negb (n =? 105) && negb (n =? 107))%N
      && plain_lower t
  end.

(** The level text maps to a severity of the engine. *)
Definition recognized (text : string) : Prop :=
  exists l, zapcore.UnmarshalText text = inr l.

(** ** Values the examples run on *)

(** No path opens but "stdout" and "stderr". *)
Definition only_std : string -> bool := fun _ => false.

(** The state before the package has made a logger. *)
Definition world0 : World :=
  {| sinks := []; heap := []; std := 0%nat; globalL := None; stdLog := None |}.

(** The options of [Test_Options_Validate]. *)
Definition opts_test : Options :=
  {| OutputPaths := ["stdout"; "./log"];
     ErrorOutputPaths := ["stderr"];
     Level := "test";
     Format := "test";
     DisableCaller := false;
     DisableStacktrace := false;
     EnableColor := true;
     Development := false;
     Name := "" |}.

(** [NewOptions()] with one field changed. *)
Definition opts_level (lvl : string) : Options :=
  {| OutputPaths := ["stdout"]; ErrorOutputPaths := ["stderr"];
     Level := lvl; Format := consoleFormat;
     DisableCaller := false; DisableStacktrace := false;
     EnableColor := false; Development := false; Name := "" |}.

Definition opts_format (format : string) : Options :=
  {| OutputPaths := ["stdout"]; ErrorOutputPaths := ["stderr"];
     Level := InfoLevel_String; Format := format;
     DisableCaller := false; DisableStacktrace := false;
     EnableColor := false; Development := false; Name := "" |}.

Definition opts_disable_caller : Options :=
  {| OutputPaths := ["stdout"]; ErrorOutputPaths := ["stderr"];
     Level := InfoLevel_String; Format := consoleFormat;
     DisableCaller := true; DisableStacktrace := false;
     EnableColor := false; Development := false; Name := "" |}.

Definition opts_development : Options :=
  {| OutputPaths := ["stdout"]; ErrorOutputPaths := ["stderr"];
     Level := InfoLevel_String; Format := consoleFormat;
     DisableCaller := false; DisableStacktrace := false;
     EnableColor := false; Development := true; Name := "" |}.

(** The engine logger [New(opts)] builds when the sinks open. *)
Definition built (opts : Options) : zap.Logger :=
  zap.WithOptions
    (zap.New {| zapcore.enc := Format opts;
                zapcore.encoderConfig := zap.EncoderConfig (loggerConfig opts);
                zapcore.out := OutputPaths opts;
                zapcore.LevelEnabler := Options.zapLevel opts;
                zapcore.sampler := None;
                zapcore.context := [] |}
             (zap.buildOptions (loggerConfig opts) (ErrorOutputPaths opts)))
    [zap.AddStacktrace zapcore.PanicLevel; zap.AddCallerSkip 1].

(** The object [New(opts)] makes, for options without a name. *)
Definition object_of (opts : Options) : zapLogger :=
  {| zapLogger_ := built opts;
     infoLogger_ := {| level := zap.InfoLevel; log := built opts |} |}.

(** The state after [Init(opts)] from [world0]: [std] is at address 0. *)
Definition world_of (opts : Options) : World :=
  snd (Init only_std (Some opts) world0).

(** ** Notions of the key/value conversion *)

(** The argument list [k1, v1, k2, v2, ...] of string-keyed pairs, and the
    generic fields [zap.Any(k, v)] of the pairs. *)
Definition flat (pairs : list (string * any)) : list any :=
  concat (map (fun kv => [VString (fst kv); snd kv]) pairs).

Definition fields_of (pairs : list (string * any)) : list Field :=
  map (fun kv => zap.Any (fst kv) (snd kv)) pairs.

(** Where the conversion stops: at the end of the list, at a typed field
    where a key should be, at a last element without a value, or at a key
    that is not a string. *)
Inductive stops : list any -> Prop :=
| stops_end : stops []
| stops_field f rest : stops (VField f :: rest)
| stops_unpaired key : stops [key]
| stops_key key val rest :
    (forall s, key <> VString s) -> stops (key :: val :: rest).

(** The leading string-keyed pairs of an argument list and what is left. *)
Fixpoint split_pairs (args : list any) : list (string * any) * list any :=
  match args with
  | VString k :: v :: rest =>
      let '(ps, r) := split_pairs rest in ((k, v) :: ps, r)
  | _ => ([], args)
  end.

(** The diagnostic for the element the conversion stops at, by the order
    of the three tests in the loop: its message and its field. *)
Definition diagnostic (rest : list any) : option (string * Field) :=
  match rest with
  | [] => None
  | VField f :: _ =>
      Some ("strongly-typed Zap Field passed to logr",
            zap.Any "zap field" (VField f))
  | [key] =>
      Some ("odd number of arguments passed as key-value pairs for logging",
            zap.Any "ignored key" key)
  | VString _ :: _ :: _ => None
  | key :: _ :: _ =>
      Some ("non-string key argument passed to logging, ignoring all later arguments",
            zap.Any "invalid key" key)
  end.

(** The record a logger writes at a level: its name, whether it captures
    the caller and a stack trace, its bound fields before the call's. *)
Definition line_of (log : zap.Logger) (lvl : zapcore.Level) (msg : string)
    (fields : list Field) : zapcore.Line :=
  {| zapcore.line_entry :=
       {| zapcore.Level_ := lvl;
          zapcore.LoggerName := zap.name log;
          zapcore.Message := msg;
          zapcore.Caller := zap.addCaller log;
          zapcore.Stack := zapcore.Enabled (zap.addStack log) lvl |};
     zapcore.line_fields := zapcore.context (zap.core log) ++ fields |}.

(** How a call at a level ends: Panic panics, Fatal exits, DPanic panics
    in development mode, every other level returns. *)
Definition terminal (log : zap.Logger) (lvl : zapcore.Level) (msg : string)
  : outcome unit :=
  if lvl =? zapcore.PanicLevel then Panicked (PString msg)
  else if lvl =? zapcore.FatalLevel then Exited 1
  else if (lvl =? zapcore.DPanicLevel) && zap.development log
       then Panicked (PString msg)
  else Ret tt.

(** ** Notions of the level-gated logger *)



(** ** Notions of the derived loggers *)

(** The field [L] binds for a key: none when the context has no value for
    it, [zap.Any(key, value)] otherwise. *)
Definition present (ctx : Context) (key : string) : list Field :=
  match Value ctx key with
  | VNil => []
  | v => [zap.Any key v]
  end.

(** The fields [L] binds, in the order of its three tests. *)
Definition ctx_fields (ctx : Context) : list Field :=
  present ctx KeyRequestID ++ present ctx KeyUsername
  ++ present ctx KeyWatcherName.

(** The fields bound to a facade object: those of its engine logger. *)
Definition bound_fields (o : zapLogger) : list Field :=
  zapcore.context (zap.core (zapLogger_ o)).

(** ** example/version/main.go *)

(** [main]: what it prints to standard output, from [os.Args] and the
    three package variables.  [fmt.Printf] with [%s] and a string puts the
    bytes of the string. *)
Definition newline : string := String "010" EmptyString.

Definition main (Args : list string) (Version BuildTime GoVersion : string)
  : string :=
  if bool_decide (1 < length Args)%nat
     && bool_decide (Args !! 1%nat = Some "version")
  then "Version:" +:+ Version +:+ newline
       +:+ "Build Time:" +:+ BuildTime +:+ newline
       +:+ "Go Version:" +:+ GoVersion +:+ newline
  else "".

(** ** Further notions *)

(** The level names of the engine and their levels. *)
Definition level_names : list (string * zapcore.Level) :=
  [("debug", zapcore.DebugLevel); ("info", zapcore.InfoLevel);
   ("warn", zapcore.WarnLevel); ("error", zapcore.ErrorLevel);
   ("dpanic", zapcore.DPanicLevel); ("panic", zapcore.PanicLevel);
   ("fatal", zapcore.FatalLevel)].

(** A word of small ASCII letters. *)
Fixpoint lower_word (w : string) : bool :=
  match w with
  | EmptyString => true
  | String d t =>
      let n := N_of_ascii d in ((97 <=? n) && (n <=? 122))%N && lower_word t
  end.

(** The format names an encoder of the engine, and every sink opens:
    what the engine needs to build a logger. *)
Definition buildable (fs : string -> bool) (o : Options) : Prop :=
  (Format o = "console" \/ Format o = "json")
  /\ Forall (fun p => zap.opens fs p = true) (OutputPaths o)
  /\ Forall (fun p => zap.opens fs p = true) (ErrorOutputPaths o).

(** The engine logger [Build] installs when the engine can be built. *)
Definition installed (o : Options) : zap.Logger :=
  zap.WithOptions
    (zap.New {| zapcore.enc := Format o;
                zapcore.encoderConfig := zap.EncoderConfig (Options.zapConfig o);
                zapcore.out := OutputPaths o;
                zapcore.LevelEnabler := Options.zapLevel o;
                zapcore.sampler := None;
                zapcore.context := [] |}
             (zap.buildOptions (Options.zapConfig o) (ErrorOutputPaths o)))
    [zap.AddStacktrace zapcore.PanicLevel].

(** Options with a name and a file sink, for the examples. *)
Definition opts_named : Options :=
  {| OutputPaths := ["stdout"; "/var/log/iam.log"];
     ErrorOutputPaths := ["stderr"];
     Level := "WARN"; Format := jsonFormat;
     DisableCaller := false; DisableStacktrace := false;
     EnableColor := false; Development := false; Name := "iam" |}.

Definition log_file_only : string -> bool :=
  fun p => bool_decide (p = "/var/log/iam.log").

(** The object [NewLogger] makes for an engine logger. *)
Definition wrapped (g : zap.Logger) : zapLogger :=
  {| zapLogger_ := g; infoLogger_ := {| log := g; level := zap.InfoLevel |} |}.

(** The name [Named] gives: the part after the name so far, joined by a
    dot. *)
Definition joined (name s : string) : string :=
  if decide (name = "") then s else name +:+ "." +:+ s.

(** The options with the disable-stacktrace flag set to [b]. *)
Definition with_DisableStacktrace (b : bool) (o : Options) : Options :=
  {| OutputPaths := OutputPaths o; ErrorOutputPaths := ErrorOutputPaths o;
     Level := Level o; Format := Format o;
     DisableCaller := DisableCaller o; DisableStacktrace := b;
     EnableColor := EnableColor o; Development := Development o;
     Name := Name o |}.

(** * Properties *)

(** ** Strings *)

Example ToLower_Console : ToLower "Console" = "console".
Proof. reflexivity. Qed.

Lemma N_of_ascii_inj c d : N_of_ascii c = N_of_ascii d -> c = d.
Proof.
  intros H. rewrite <- (ascii_N_embedding c), <- (ascii_N_embedding d).
  now rewrite H.
Qed.

Lemma N_of_lower_byte c :
  N_of_ascii (lower_byte c)
  = (if is_upper_byte c then N_of_ascii c + 32 else N_of_ascii c)%N.
Proof.
  unfold lower_byte. destruct (is_upper_byte c) eqn:E; [|reflexivity].
  apply N_ascii_embedding. unfold is_upper_byte in E.
  apply andb_prop in E as [_ E]. apply N.leb_le in E. lia.
Qed.

(** A plain small letter has itself and its capital as the only bytes that
    lower-case to it. *)
Lemma lower_byte_plain c d :
  (97 <= N_of_ascii d <= 122)%N ->
  same_letter c d <-> lower_byte c = d.
Proof.
  intros Hd.
  assert (Hdd : lower_byte d = d).
  { unfold lower_byte. destruct (is_upper_byte d) eqn:E; [|reflexivity].
    unfold is_upper_byte in E. apply andb_prop in E as [_ E].
    apply N.leb_le in E. lia. }
  split.
  - intros [-> | [H | ->]]; [exact Hdd | exact H | now rewrite !Hdd].
  - intros H. right; left. exact H.
Qed.

Lemma ToLower_cons c s :
  ToLower (String c s) = String (lower_byte c) (ToLower s)
  \/ (exists r, ToLower (String c s) = String "i" r)
  \/ (exists r, ToLower (String c s) = String "k" r).
Proof.
  destruct s as [|c1 s2]; [left; reflexivity|].
  cbn [ToLower].
  destruct ((N_of_ascii c =? 196)%N && (N_of_ascii c1 =? 176)%N).
  { right; left; eauto. }
  destruct s2 as [|c2 s3]; [left; reflexivity|].
  destruct ((N_of_ascii c =? 226)%N && (N_of_ascii c1 =? 132)%N
            && (N_of_ascii c2 =? 170)%N).
  { right; right; eauto. }
  left; reflexivity.
Qed.

Lemma ToLower_cons_letter c s :
  (N_of_ascii c < 128)%N ->
  ToLower (String c s) = String (lower_byte c) (ToLower s).
Proof.
  intros Hc. destruct s as [|c1 s2]; [reflexivity|].
  cbn [ToLower].
  destruct (N.eqb_spec (N_of_ascii c) 196); [lia|]. cbn [andb].
  destruct s2 as [|c2 s3]; [reflexivity|].
  destruct (N.eqb_spec (N_of_ascii c) 226); [lia|]. reflexivity.
Qed.

Lemma plain_lower_cons d t :
  plain_lower (String d t) = true ->
  (97 <= N_of_ascii d <= 122)%N /\ d <> "i"%char /\ d <> "k"%char
  /\ plain_lower t = true.
Proof.
  cbn [plain_lower]. intros H.
  apply andb_prop in H as [H Ht]. apply andb_prop in H as [H Hk].
  apply andb_prop in H as [H Hi]. apply andb_prop in H as [H1 H2].
  apply N.leb_le in H1, H2.
  apply negb_true_iff in Hi, Hk. apply N.eqb_neq in Hi, Hk.
  repeat split; try assumption; intros ->; [apply Hi | apply Hk]; reflexivity.
Qed.

(** Against a plain small word, comparing the lower-cased string is
    comparing up to case. *)
Lemma ToLower_fold_eq w :
  plain_lower w = true -> forall s, ToLower s = w <-> fold_eq s w.
Proof.
  induction w as [|d t IH]; intros Hw s.
  - split.
    + destruct s as [|c s]; [constructor|].
      intros H. destruct (ToLower_cons c s) as [E | [[r E] | [r E]]];
        rewrite E in H; discriminate.
    + inversion 1. reflexivity.
  - apply plain_lower_cons in Hw as (Hd & Hi & Hk & Ht).
    split.
    + destruct s as [|c s]; [discriminate|].
      intros H. destruct (ToLower_cons c s) as [E | [[r E] | [r E]]];
        rewrite E in H; inversion H; subst; try congruence.
      constructor; [right; left; reflexivity | now apply IH].
    + inversion 1 as [|c d' s' t' Hcd Hst]; subst.
      apply lower_byte_plain in Hcd; [|exact Hd].
      rewrite ToLower_cons_letter.
      * f_equal; [exact Hcd | now apply IH].
      * assert (Hn := N_of_lower_byte c). rewrite Hcd in Hn.
        destruct (is_upper_byte c); lia.
Qed.

(** ** Options.Validate *)

(** The two checks of [Validate] each add their error or nothing, the
    level check first. *)
Lemma Validate_app o :
  Options.Validate o
  = match zapcore.UnmarshalText (Level o) with
    | inl err => [err]
    | inr _ => []
    end
    ++ (if decide (ToLower (Format o) = consoleFormat
                   \/ ToLower (Format o) = jsonFormat)
        then [] else [Errorf "not a valid log format: %q" (Format o)]).
Proof.
  unfold Options.Validate.
  destruct (zapcore.UnmarshalText (Level o)) as [e|l];
    destruct (decide _) as [[->| ->]|Hn]; try reflexivity;
    rewrite !bool_decide_true by tauto; reflexivity.
Qed.

Lemma UnmarshalText_error text :
  ~ recognized text ->
  zapcore.UnmarshalText text = inl (Errorf "unrecognized level: %q" text).
Proof.
  intros Hn. unfold recognized, zapcore.UnmarshalText in *.
  destruct (zapcore.unmarshalText text); [exfalso; eauto|].
  destruct (zapcore.unmarshalText (ToLower text)); [exfalso; eauto|].
  reflexivity.
Qed.

(** C3. When the level is not a recognized severity and the format is,
    up to case, neither "console" nor "json", [Validate] returns exactly
    two errors: the one naming the level, then the one naming the format.
    Neither check is skipped because the other failed. *)
Theorem Validate_level_then_format (o : Options) :
  ~ recognized (Level o) ->
  ~ fold_eq (Format o) "console" ->
  ~ fold_eq (Format o) "json" ->
  Options.Validate o
  = [Errorf "unrecognized level: %q" (Level o);
     Errorf "not a valid log format: %q" (Format o)].
Proof.
  intros Hl Hc Hj. rewrite Validate_app, (UnmarshalText_error _ Hl).
  destruct (decide _) as [[H|H]|_]; [| |reflexivity].
  - exfalso. apply Hc. now apply ToLower_fold_eq.
  - exfalso. apply Hj. now apply ToLower_fold_eq.
Qed.

Lemma Validate_level_then_format_witness :
  Options.Validate opts_test
  = [Errorf "unrecognized level: %q" "test";
     Errorf "not a valid log format: %q" "test"].
Proof.
  apply (Validate_level_then_format opts_test).
  - intros [l H]. vm_compute in H. discriminate.
  - intros H. apply ToLower_fold_eq in H; [discriminate | reflexivity].
  - intros H. apply ToLower_fold_eq in H; [discriminate | reflexivity].
Defined.

(** The sample states are what [Init] leaves. *)
Example world_of_default :
  Init only_std None world0
  = (Ret tt,
     {| sinks := [];
        heap := [{| zapLogger_ := built NewOptions;
                    infoLogger_ := {| level := zapcore.InfoLevel;
                                      log := built NewOptions |} |}];
        std := 0%nat; globalL := None; stdLog := Some (built NewOptions) |}).
Proof. reflexivity. Qed.

Example world_of_development :
  heap (world_of opts_development)
  = [{| zapLogger_ := built opts_development;
        infoLogger_ := {| level := zapcore.InfoLevel;
                          log := built opts_development |} |}]
  /\ zap.development (built opts_development) = true.
Proof. split; reflexivity. Qed.

(** ** Options.Build *)

(** [Build] fails exactly when the engine cannot be made from
    [zapConfig]; when it is made, it becomes the engine's global logger and
    the target of the standard library's log output, and nothing is
    written. *)
Lemma Build_error_iff fs o w :
  (forall err, fst (Options.Build fs o w) = Ret (Some err)
               <-> zap.Build fs (Options.zapConfig o)
                     [zap.AddStacktrace zapcore.PanicLevel] = inl err)
  /\ (forall logger,
        zap.Build fs (Options.zapConfig o)
          [zap.AddStacktrace zapcore.PanicLevel] = inr logger ->
        Options.Build fs o w
        = (Ret None,
           {| sinks := sinks w; heap := heap w; std := std w;
              globalL := Some logger;
              stdLog := Some (zap.Named logger (Name o)) |})).
Proof.
  unfold Options.Build.
  destruct (zap.Build fs (Options.zapConfig o) _) as [e|l]; split.
  - intros err. cbn. split; congruence.
  - discriminate.
  - intros err. cbn. split; discriminate.
  - intros logger [= ->]. reflexivity.
Qed.

(** An unparseable level text becomes [InfoLevel] in [Build] and [New]. *)
Lemma zapLevel_fallback o :
  ~ recognized (Level o) ->
  zap.Level (Options.zapConfig o) = zapcore.InfoLevel
  /\ zap.Level (loggerConfig o) = zapcore.InfoLevel.
Proof.
  intros H. cbn. unfold Options.zapLevel, zap.NewAtomicLevelAt.
  rewrite (UnmarshalText_error _ H). split; reflexivity.
Qed.

(** Whatever [DisableStacktrace] says, the logger [Build] installs takes
    stack traces from Panic up: the option [AddStacktrace(PanicLevel)]
    that [Build] passes is applied after those of the configuration. *)
Lemma Build_addStack fs o logger :
  zap.Build fs (Options.zapConfig o) [zap.AddStacktrace zapcore.PanicLevel]
  = inr logger ->
  zap.addStack logger = zapcore.PanicLevel.
Proof.
  unfold zap.Build.
  destruct (zap.newEncoder _); [discriminate|].
  destruct (zap.Open fs (zap.OutputPaths _)); [discriminate|].
  destruct (zap.Open fs (zap.ErrorOutputPaths _)); [discriminate|].
  intros [= <-]. reflexivity.
Qed.

(** What [Build] hands the engine, field by field: every setting is the
    option of the same name, except [DisableCaller], which is filled from
    [Development]. *)
Lemma zapConfig_fields o :
  zap.Development (Options.zapConfig o) = Development o
  /\ zap.DisableStacktrace (Options.zapConfig o) = DisableStacktrace o
  /\ zap.Encoding (Options.zapConfig o) = Format o
  /\ zap.OutputPaths (Options.zapConfig o) = OutputPaths o
  /\ zap.ErrorOutputPaths (Options.zapConfig o) = ErrorOutputPaths o
  /\ zap.DisableCaller (Options.zapConfig o) = Development o.
Proof. repeat split. Qed.

(** C1. [Build] with disable-caller set and development unset: the
    configuration handed to the engine has caller capture enabled, and so
    has the logger it installs, where [New] on the same options disables
    it.  The claim asks for caller capture to be off exactly when
    disable-caller is set. *)
Theorem Build_DisableCaller_from_Development :
  DisableCaller opts_disable_caller = true
  /\ zap.DisableCaller (Options.zapConfig opts_disable_caller) = false
  /\ zap.DisableCaller (loggerConfig opts_disable_caller) = true
  /\ (exists logger,
        globalL (snd (Options.Build only_std opts_disable_caller world0))
        = Some logger
        /\ zap.addCaller logger = true)
  /\ zap.addCaller (built opts_disable_caller) = false.
Proof.
  repeat split. eexists. split; reflexivity.
Qed.

(** C10. Options whose level is recognized and whose format is "console"
    or "json" up to case, but not in that very spelling: [Validate] has
    nothing to report, and [Build] returns an error whatever sinks open,
    the engine knowing no encoder of that name. *)
Theorem Validate_passes_Build_fails (o : Options) :
  recognized (Level o) ->
  fold_eq (Format o) "console" \/ fold_eq (Format o) "json" ->
  Format o <> "console" -> Format o <> "json" ->
  Options.Validate o = []
  /\ forall fs w, exists err, Options.Build fs o w = (Ret (Some err), w).
Proof.
  intros [l Hl] Hf Hc Hj. split.
  - rewrite Validate_app, Hl.
    destruct (decide _) as [_|Hn]; [reflexivity|].
    exfalso. apply Hn.
    destruct Hf as [Hf|Hf]; [left|right]; now apply ToLower_fold_eq.
  - intros fs w. unfold Options.Build, zap.Build, zap.newEncoder.
    cbn [zap.Encoding Options.zapConfig].
    destruct (decide (Format o = "")) as [_|_]; [eexists; reflexivity|].
    destruct (decide _) as [[H|H]|_]; [congruence | congruence |].
    eexists; reflexivity.
Qed.

Lemma Validate_passes_Build_fails_witness :
  Options.Validate (opts_format "Console") = []
  /\ forall fs w, exists err,
       Options.Build fs (opts_format "Console") w = (Ret (Some err), w).
Proof.
  apply (Validate_passes_Build_fails (opts_format "Console")).
  - exists zapcore.InfoLevel. reflexivity.
  - left. apply ToLower_fold_eq; reflexivity.
  - discriminate.
  - discriminate.
Defined.

(** ** The engine's leveled calls *)

(** A call at a level writes one record when the core enables the level
    and none otherwise, then ends as the level has it. *)
Lemma logAt_spec lvl log msg fields s :
  zap.logAt lvl log msg fields s
  = (terminal log lvl msg,
     s ++ if zapcore.Core_Enabled (zap.core log) lvl
          then [line_of log lvl msg fields] else []).
Proof.
  unfold zap.logAt, zap.check, terminal, zapcore.Core_Check, line_of.
  cbn [zapcore.Level_].
  destruct (zapcore.Core_Enabled (zap.core log) lvl) eqn:En;
    cbn [negb andb zapcore.AddCore].
  - rewrite andb_false_r.
    rewrite bool_decide_true by discriminate.
    unfold zapcore.PanicLevel, zapcore.FatalLevel, zapcore.DPanicLevel.
    destruct (Z.eqb_spec lvl 4); [reflexivity|].
    destruct (Z.eqb_spec lvl 5); [reflexivity|].
    destruct (Z.eqb_spec lvl 3); cbn [andb]; [|reflexivity].
    destruct (zap.development log); reflexivity.
  - rewrite andb_true_r.
    rewrite bool_decide_false by (intros H; now apply H).
    unfold zapcore.PanicLevel, zapcore.FatalLevel, zapcore.DPanicLevel.
    destruct (Z.ltb_spec lvl 3).
    + destruct (Z.eqb_spec lvl 4); [lia|].
      destruct (Z.eqb_spec lvl 5); [lia|].
      destruct (Z.eqb_spec lvl 3); [lia|].
      cbn. now rewrite app_nil_r.
    + destruct (Z.eqb_spec lvl 4); [cbn; now rewrite app_nil_r|].
      destruct (Z.eqb_spec lvl 5); [cbn; now rewrite app_nil_r|].
      destruct (Z.eqb_spec lvl 3); cbn [andb].
      * destruct (zap.development log); cbn; now rewrite app_nil_r.
      * cbn. now rewrite app_nil_r.
Qed.

(** The diagnostic of the conversion, run on a world. *)
Lemma DPanic_spec l msg f w :
  engine (zap.DPanic l msg [f]) w
  = ((if zap.development l then Panicked (PString msg) else Ret tt),
     set_sinks (sinks w ++ if zapcore.Core_Enabled (zap.core l) zapcore.DPanicLevel
                           then [line_of l zapcore.DPanicLevel msg [f]]
                           else []) w).
Proof.
  unfold engine, zap.DPanic. rewrite logAt_spec. reflexivity.
Qed.

(** ** handleFields *)

Lemma split_pairs_flat args :
  args = flat (fst (split_pairs args)) ++ snd (split_pairs args).
Proof.
  induction args as [args IH] using (induction_ltof1 _ (@length any)).
  destruct args as [|[| k | | | |] [|v rest]]; try reflexivity.
  cbn [split_pairs]. specialize (IH rest).
  destruct (split_pairs rest) as [ps r]. cbn in *.
  rewrite <- IH; [reflexivity|]. unfold ltof. cbn. lia.
Qed.

Lemma split_pairs_stops args : stops (snd (split_pairs args)).
Proof.
  induction args as [args IH] using (induction_ltof1 _ (@length any)).
  destruct args as [|[| k | | | |] [|v rest]]; cbn [split_pairs snd];
    try (constructor; congruence).
  specialize (IH rest). destruct (split_pairs rest) as [ps r]. cbn in *.
  apply IH. unfold ltof. cbn. lia.
Qed.

(** The decomposition is the only one: the pairs are the longest run of
    string-keyed pairs. *)
Lemma split_pairs_unique pairs rest :
  stops rest -> split_pairs (flat pairs ++ rest) = (pairs, rest).
Proof.
  intros Hs. induction pairs as [|[k v] ps IH].
  - cbn. destruct Hs as [|f r|key|key val r Hk]; try reflexivity.
    + destruct key; reflexivity.
    + destruct key; try reflexivity. exfalso. now apply (Hk s).
  - change (flat ((k, v) :: ps) ++ rest)
      with (VString k :: v :: (flat ps ++ rest)).
    cbn [split_pairs]. now rewrite IH.
Qed.

(** The loop, started at the index where [suf] begins with what it has
    gathered so far: it gathers the fields of the leading pairs of [suf]
    and issues the diagnostic of what follows them, if any.  [fuel] from
    [length suf] on is never used up. *)
Lemma handleFields_loop_spec l fuel :
  forall suf pre fields w,
    (length suf <= fuel)%nat ->
    handleFields_loop fuel l (pre ++ suf) (length pre) fields w
    = match diagnostic (snd (split_pairs suf)) with
      | None => (Ret (fields ++ fields_of (fst (split_pairs suf))), w)
      | Some (msg, f) =>
          (engine (zap.DPanic l msg [f]) ;;;
           ret (fields ++ fields_of (fst (split_pairs suf)))) w
      end.
Proof.
  induction fuel as [|fuel IH]; intros suf pre fields w Hfuel.
  - destruct suf; [|cbn in Hfuel; lia]. cbn. now rewrite app_nil_r.
  - cbn [handleFields_loop].
    destruct suf as [|x suf].
    { rewrite app_nil_r. destruct (decide _); [lia|].
      cbn. now rewrite app_nil_r. }
    destruct (decide _) as [_|Hn]; [|rewrite length_app in Hn; cbn in Hn; lia].
    rewrite list_lookup_middle by reflexivity.
    destruct suf as [|y suf].
    { destruct (decide (length pre = length (pre ++ [x]) - 1)%nat) as [_|Hn];
        [|rewrite length_app in Hn; cbn in Hn; lia].
      destruct x; cbn; now rewrite app_nil_r. }
    destruct (decide (length pre = length (pre ++ x :: y :: suf) - 1)%nat) as [He|_];
      [rewrite length_app in He; cbn in He; lia|].
    replace (pre ++ x :: y :: suf) with ((pre ++ [x]) ++ y :: suf)
      by now rewrite <- app_assoc.
    rewrite (list_lookup_middle (pre ++ [x]) suf y)
      by (rewrite length_app; cbn; lia).
    destruct x as [| k | | | |]; try (cbn; now rewrite app_nil_r).
    replace ((pre ++ [VString k]) ++ y :: suf)
      with ((pre ++ [VString k; y]) ++ suf)
      by (rewrite <- !app_assoc; reflexivity).
    replace (length pre + 2)%nat with (length (pre ++ [VString k; y]))
      by (rewrite length_app; cbn; lia).
    rewrite IH by (cbn in Hfuel; lia).
    cbn [split_pairs]. destruct (split_pairs suf) as [ps r]. cbn [fst snd].
    cbn [fields_of map fst snd]. rewrite <- app_assoc. reflexivity.
Qed.

(** [handleFields] on any argument list: the fields of the leading
    string-keyed pairs, then [additional], after the diagnostic of the
    element the conversion stopped at, if it stopped before the end. *)
Lemma handleFields_spec l args additional w :
  handleFields l args additional w
  = match diagnostic (snd (split_pairs args)) with
    | None => (Ret (fields_of (fst (split_pairs args)) ++ additional), w)
    | Some (msg, f) =>
        (engine (zap.DPanic l msg [f]) ;;;
         ret (fields_of (fst (split_pairs args)) ++ additional)) w
    end.
Proof.
  unfold handleFields. destruct (decide (length args = 0%nat)) as [E|_].
  - destruct args; [reflexivity | discriminate].
  - unfold bind at 1.
    pose proof (handleFields_loop_spec l (length args) args [] [] w) as H.
    change ([] ++ args) with args in H.
    change (length (@nil any)) with 0%nat in H.
    rewrite H by lia. clear H.
    destruct (diagnostic _) as [[msg f]|]; [|reflexivity].
    unfold bind. destruct (engine _ w) as [[[]|v|c] w']; reflexivity.
Qed.



Lemma flat_length pairs : length (flat pairs) = (2 * length pairs)%nat.
Proof.
  induction pairs as [|kv ps IH]; [reflexivity|].
  change (flat (kv :: ps)) with (VString (fst kv) :: snd kv :: flat ps).
  cbn [length]. rewrite IH. cbn [length]. lia.
Qed.


(** [handleFields] returns unless the engine is in development mode and
    the list is malformed; the facade objects are left as they were. *)
Lemma handleFields_returns l args additional w :
  zap.development l = false \/ (exists pairs, args = flat pairs) ->
  exists w',
    handleFields l args additional w
    = (Ret (fields_of (fst (split_pairs args)) ++ additional), w')
    /\ heap w' = heap w.
Proof.
  intros H. rewrite handleFields_spec.
  destruct H as [Hdev | [pairs ->]].
  - destruct (diagnostic _) as [[msg f]|] eqn:Ed.
    + eexists. unfold bind. rewrite DPanic_spec, Hdev. split; reflexivity.
    + exists w. split; reflexivity.
  - rewrite <- (app_nil_r (flat pairs)).
    rewrite (split_pairs_unique pairs []) by constructor.
    cbn [fst snd diagnostic]. exists w. split; reflexivity.
Qed.

(** C4, as the code has it.  Unless the engine is in development mode and
    the list is malformed, [handleFields] returns: the argument list
    splits, in one way only, into its leading string-keyed pairs and a
    rest at which the conversion stops (the end of the list, a typed field
    in key position, a last element without a value, or a key that is not
    a string); the result is one generic field per leading pair, in
    order, nothing from the rest, and then the additional fields, also
    when the conversion stopped early.  The facade objects are left as
    they were. *)
Theorem handleFields_leading_pairs l args additional w :
  zap.development l = false \/ (exists pairs, args = flat pairs) ->
  exists pairs rest w',
    args = flat pairs ++ rest
    /\ stops rest
    /\ (forall pairs' rest',
          args = flat pairs' ++ rest' -> stops rest' ->
          pairs' = pairs /\ rest' = rest)
    /\ handleFields l args additional w
       = (Ret (fields_of pairs ++ additional), w')
    /\ heap w' = heap w.
Proof.
  intros H.
  destruct (handleFields_returns l args additional w H) as (w' & Hh & Hheap).
  exists (fst (split_pairs args)), (snd (split_pairs args)), w'.
  split; [apply split_pairs_flat|].
  split; [apply split_pairs_stops|].
  split; [|split; assumption].
  intros pairs' rest' -> Hs. rewrite (split_pairs_unique pairs' rest' Hs).
  split; reflexivity.
Qed.

Lemma handleFields_leading_pairs_witness :
  exists pairs rest w',
    [VString "a"; VString "1"; VInt 7; VString "x"] = flat pairs ++ rest
    /\ stops rest
    /\ (forall pairs' rest',
          [VString "a"; VString "1"; VInt 7; VString "x"] = flat pairs' ++ rest' ->
          stops rest' -> pairs' = pairs /\ rest' = rest)
    /\ handleFields (built NewOptions)
         [VString "a"; VString "1"; VInt 7; VString "x"]
         [zap.Any "fixed" (VInt 1)] world0
       = (Ret (fields_of pairs ++ [zap.Any "fixed" (VInt 1)]), w')
    /\ heap w' = heap world0.
Proof.
  apply (handleFields_leading_pairs (built NewOptions)).
  left. reflexivity.
Defined.

(** C4 as stated fails: with the engine in development mode, a
    conversion that stops at a key that is not a string panics, and no
    field list comes back for the additional field to be appended to. *)
Lemma handleFields_development_no_result :
  fst (handleFields (built opts_development)
         [VString "a"; VString "1"; VInt 7; VString "x"]
         [zap.Any "fixed" (VInt 1)] world0)
  = Panicked (PString
      "non-string key argument passed to logging, ignoring all later arguments").
Proof. reflexivity. Qed.

(** A typed field stops the conversion where a key is expected; as the
    value of a string key it is a value like any other. *)
Example handleFields_typed_value :
  handleFields (built NewOptions)
    [VString "a"; VField (zap.Any "typed" (VInt 1)); VString "b"; VInt 2]
    [] world0
  = (Ret [zap.Any "a" (VField (zap.Any "typed" (VInt 1)));
          zap.Any "b" (VInt 2)], world0).
Proof. reflexivity. Qed.



(** On the list ["a"] the default logger converts nothing and writes the
    one diagnostic. *)
Example handleFields_a :
  handleFields (built NewOptions) [VString "a"] [] world0
  = (Ret [],
     set_sinks
       [line_of (built NewOptions) zapcore.DPanicLevel
          "odd number of arguments passed as key-value pairs for logging"
          [zap.Any "ignored key" (VString "a")]] world0).
Proof. reflexivity. Qed.


(** ** The level-gated logger *)


Lemma check_enabled log lvl msg :
  zapcore.Core_Enabled (zap.core log) lvl = true ->
  exists ce,
    zap.check log lvl msg = Some ce
    /\ forall fields s,
         zapcore.Write ce fields s
         = (terminal log lvl msg, s ++ [line_of log lvl msg fields]).
Proof.
  intros En.
  assert (H := fun fields s => logAt_spec lvl log msg fields s).
  unfold zap.logAt in H. rewrite En in H.
  destruct (zap.check log lvl msg) as [ce|] eqn:E.
  - exists ce. split; [reflexivity | exact H].
  - exfalso. specialize (H [] []). cbn in H. inversion H.
Qed.




(** ** zapLogger.V *)

Lemma Level_of_int_int8 n : -128 <= n <= 127 -> zapcore.Level_of_int n = n.
Proof.
  intros H. unfold zapcore.Level_of_int.
  rewrite Z.mod_small by lia. lia.
Qed.

Lemma Level_of_int_range n : -128 <= zapcore.Level_of_int n <= 127.
Proof.
  unfold zapcore.Level_of_int.
  pose proof (Z.mod_pos_bound (n + 128) 256). lia.
Qed.

Lemma infoLogger_Info_enabled l msg fields w :
  zapcore.Core_Enabled (zap.core (log l)) (level l) = true ->
  infoLogger.Info l msg fields w
  = (terminal (log l) (level l) msg,
     set_sinks (sinks w ++ [line_of (log l) (level l) msg fields]) w).
Proof.
  intros En. unfold infoLogger.Info, zap.Check.
  destruct (check_enabled (log l) (level l) msg En) as (ce & -> & Hw).
  unfold engine. now rewrite Hw.
Qed.




(** ** zapLogger.Write *)




(** ** Derived loggers *)

Lemma With_context log fields :
  zapcore.context (zap.core (zap.With log fields))
  = zapcore.context (zap.core log) ++ fields.
Proof.
  destruct fields; cbn; [now rewrite app_nil_r | reflexivity].
Qed.

Lemma With_nil log : zap.With log [] = log.
Proof. reflexivity. Qed.

Lemma With_With log a b :
  zap.With (zap.With log a) b = zap.With log (a ++ b).
Proof.
  destruct a as [|x a]; [reflexivity|].
  destruct b as [|y b]; [now rewrite app_nil_r|].
  cbn. unfold zapcore.Core_With. cbn. now rewrite <- app_assoc.
Qed.

(** Every record a logger writes starts with its bound fields. *)
Lemma line_of_With log bound lvl msg fields :
  zapcore.line_fields (line_of (zap.With log bound) lvl msg fields)
  = zapcore.context (zap.core log) ++ bound ++ fields.
Proof.
  cbn. now rewrite With_context, <- app_assoc.
Qed.

Lemma alloc_spec o w :
  alloc o w = (Ret (length (heap w)), set_heap (heap w ++ [o]) w).
Proof. reflexivity. Qed.

(** C7, as the code has it.  Unless the engine is in development mode and
    the list is malformed, [WithValues] returns a new object, at an
    address not in use before.  Its engine logger is the receiver's with
    the fields of the leading string-keyed pairs of the list bound after
    the fields already bound, so every record it writes carries the old
    fields, then the new ones, then the call's.  The receiver and every
    other object are as they were, so the receiver's records carry none
    of the new fields. *)
Theorem WithValues_appends (l : loc) (o : zapLogger) (kvs : list any) (w : World) :
  heap w !! l = Some o ->
  zap.development (zapLogger_ o) = false \/ (exists pairs, kvs = flat pairs) ->
  exists pairs rest w' new,
    kvs = flat pairs ++ rest
    /\ stops rest
    /\ zapLogger.WithValues l kvs w = (Ret (length (heap w)), w')
    /\ heap w' = heap w ++ [new]
    /\ heap w' !! l = Some o
    /\ zapLogger_ new = zap.With (zapLogger_ o) (fields_of pairs)
    /\ bound_fields new = bound_fields o ++ fields_of pairs
    /\ (forall lvl msg fields,
          zapcore.line_fields (line_of (zapLogger_ new) lvl msg fields)
          = bound_fields o ++ fields_of pairs ++ fields)
    /\ (forall lvl msg fields,
          zapcore.line_fields (line_of (zapLogger_ o) lvl msg fields)
          = bound_fields o ++ fields).
Proof.
  intros Hl Hok.
  destruct (handleFields_returns (zapLogger_ o) kvs [] w Hok)
    as (w1 & Hh & Hheap).
  rewrite app_nil_r in Hh.
  pose proof (split_pairs_flat kvs) as Hk.
  pose proof (split_pairs_stops kvs) as Hs.
  exists (fst (split_pairs kvs)), (snd (split_pairs kvs)).
  eexists. eexists.
  split; [exact Hk|]. split; [exact Hs|].
  split.
  { unfold zapLogger.WithValues, bind, deref. rewrite Hl, Hh.
    unfold NewLogger. rewrite alloc_spec, Hheap. reflexivity. }
  cbn [heap set_heap].
  split; [reflexivity|].
  split; [now apply lookup_app_l_Some|].
  split; [reflexivity|].
  split; [apply With_context|].
  split; [intros; apply line_of_With | reflexivity].
Qed.

Lemma WithValues_appends_witness :
  exists pairs rest w' new,
    [VString "key"; VString "value"] = flat pairs ++ rest
    /\ stops rest
    /\ zapLogger.WithValues 0%nat [VString "key"; VString "value"]
         (world_of NewOptions)
       = (Ret (length (heap (world_of NewOptions))), w')
    /\ heap w' = heap (world_of NewOptions) ++ [new]
    /\ heap w' !! 0%nat = Some (object_of NewOptions)
    /\ zapLogger_ new = zap.With (built NewOptions) (fields_of pairs)
    /\ bound_fields new = [] ++ fields_of pairs
    /\ (forall lvl msg fields,
          zapcore.line_fields (line_of (zapLogger_ new) lvl msg fields)
          = [] ++ fields_of pairs ++ fields)
    /\ (forall lvl msg fields,
          zapcore.line_fields (line_of (built NewOptions) lvl msg fields)
          = [] ++ fields).
Proof.
  apply (WithValues_appends 0%nat
           (object_of NewOptions)
           [VString "key"; VString "value"] (world_of NewOptions)).
  - reflexivity.
  - left. reflexivity.
Defined.

(** The chain of the specification: [WithValues("k","v")] and on its
    result [WithValues("k2","v2")]; then one record from the last logger
    and one from the base.  The first carries both fields, the second
    neither. *)
Example WithValues_chain :
  (a <- zapLogger.WithValues 0%nat [VString "k"; VString "v"] ;;
   b <- zapLogger.WithValues a [VString "k2"; VString "v2"] ;;
   zapLogger.Info b "derived" [] ;;;
   zapLogger.Info 0%nat "base" [] ;;;
   ret b) (world_of NewOptions)
  = (Ret 2%nat,
     {| sinks :=
          [line_of (zap.With (built NewOptions)
                      [zap.Any "k" (VString "v"); zap.Any "k2" (VString "v2")])
                   zapcore.InfoLevel "derived" [];
           line_of (built NewOptions) zapcore.InfoLevel "base" []];
        heap :=
          heap (world_of NewOptions)
          ++ [{| zapLogger_ := zap.With (built NewOptions) [zap.Any "k" (VString "v")];
                 infoLogger_ :=
                   {| level := zap.InfoLevel;
                      log := zap.With (built NewOptions) [zap.Any "k" (VString "v")] |} |};
              {| zapLogger_ :=
                   zap.With (built NewOptions)
                     [zap.Any "k" (VString "v"); zap.Any "k2" (VString "v2")];
                 infoLogger_ :=
                   {| level := zap.InfoLevel;
                      log := zap.With (built NewOptions)
                               [zap.Any "k" (VString "v");
                                zap.Any "k2" (VString "v2")] |} |}];
        std := 0%nat; globalL := None; stdLog := Some (built NewOptions) |}).
Proof. reflexivity. Qed.

(** C7 as stated fails: in development mode [WithValues] on the odd
    list ["k"] panics and returns no logger. *)
Lemma WithValues_development_panics :
  fst (zapLogger.WithValues 0%nat [VString "k"] (world_of opts_development))
  = Panicked (PString
      "odd number of arguments passed as key-value pairs for logging").
Proof. reflexivity. Qed.

(** ** zapLogger.L *)

Lemma insert_last {A} (l : list A) (x y : A) :
  <[length l := y]> (l ++ [x]) = l ++ [y].
Proof.
  replace (length l) with (length l + 0)%nat by lia.
  now rewrite insert_app_r.
Qed.

Lemma set_heap_same w : set_heap (heap w) w = w.
Proof. now destruct w. Qed.

Lemma present_cases ctx key :
  (Value ctx key = VNil /\ present ctx key = [])
  \/ (Value ctx key <> VNil /\ present ctx key = [zap.Any key (Value ctx key)]).
Proof.
  unfold present. destruct (Value ctx key); [left | right ..];
    split; congruence.
Qed.

(** One of the three tests of [L], on the clone at [ng]: the field of the
    key is bound when the context has a value for it. *)
Lemma L_step ctx key ng oc wc :
  heap wc !! ng = Some oc ->
  (match Value ctx key with
   | VNil => ret tt
   | v => zapLogger.set_zapLogger_With ng (zap.Any key v)
   end) wc
  = (Ret tt,
     set_heap (<[ng := {| zapLogger_ := zap.With (zapLogger_ oc) (present ctx key);
                          infoLogger_ := infoLogger_ oc |}]> (heap wc)) wc).
Proof.
  intros Hng. unfold present.
  destruct (Value ctx key);
    try (unfold zapLogger.set_zapLogger_With, bind, deref, store;
         rewrite Hng; cbv beta iota; rewrite Hng; reflexivity).
  rewrite With_nil. unfold ret. f_equal.
  replace {| zapLogger_ := zapLogger_ oc; infoLogger_ := infoLogger_ oc |}
    with oc by now destruct oc.
  rewrite list_insert_id by exact Hng. now rewrite set_heap_same.
Qed.

(** The same on a heap whose last object is the clone. *)
Lemma L_step_last ctx key h oc w :
  (match Value ctx key with
   | VNil => ret tt
   | v => zapLogger.set_zapLogger_With (length h) (zap.Any key v)
   end) (set_heap (h ++ [oc]) w)
  = (Ret tt,
     set_heap (h ++ [{| zapLogger_ := zap.With (zapLogger_ oc) (present ctx key);
                        infoLogger_ := infoLogger_ oc |}]) w).
Proof.
  rewrite (L_step ctx key (length h) oc)
    by (cbn [heap set_heap]; apply list_lookup_middle; reflexivity).
  cbn [heap set_heap]. now rewrite insert_last.
Qed.

(** [L] as a whole: a copy of the receiver is put at a new address, and
    the engine logger of the copy gets the fields of the keys present. *)
Lemma L_spec l o ctx w :
  heap w !! l = Some o ->
  zapLogger.L l ctx w
  = (Ret (length (heap w)),
     set_heap (heap w ++ [{| zapLogger_ := zap.With (zapLogger_ o) (ctx_fields ctx);
                             infoLogger_ := infoLogger_ o |}]) w).
Proof.
  intros Hl. unfold zapLogger.L, zapLogger.clone.
  unfold bind at 1 2. unfold deref. rewrite Hl, alloc_spec.
  unfold bind at 1. rewrite L_step_last.
  unfold bind at 1. rewrite L_step_last.
  unfold bind at 1. rewrite L_step_last.
  cbn [zapLogger_ infoLogger_]. rewrite !With_With. reflexivity.
Qed.

(** C8.  [L(ctx)] returns a copy of the receiver at a new address.  The
    copy's engine logger is the receiver's with one field bound for each
    of the keys request-identifier, user-name and watcher-name that the
    context has a value for, in that order, after the fields already
    bound; a key without a value adds nothing and is no failure: [L]
    returns and nothing is written.  The receiver and every other object
    are as they were.  With a value for the request-identifier only, the
    one field added is that one. *)
Theorem L_binds_present_keys (l : loc) (o : zapLogger) (ctx : Context) (w : World) :
  heap w !! l = Some o ->
  exists w' new,
    zapLogger.L l ctx w = (Ret (length (heap w)), w')
    /\ heap w' = heap w ++ [new]
    /\ heap w' !! l = Some o
    /\ sinks w' = sinks w
    /\ zapLogger_ new = zap.With (zapLogger_ o) (ctx_fields ctx)
    /\ infoLogger_ new = infoLogger_ o
    /\ bound_fields new
       = bound_fields o ++ present ctx KeyRequestID
         ++ present ctx KeyUsername ++ present ctx KeyWatcherName
    /\ (forall key, Value ctx key = VNil -> present ctx key = [])
    /\ (forall key, Value ctx key <> VNil ->
          present ctx key = [zap.Any key (Value ctx key)])
    /\ (Value ctx KeyRequestID <> VNil ->
        Value ctx KeyUsername = VNil ->
        Value ctx KeyWatcherName = VNil ->
        bound_fields new
        = bound_fields o ++ [zap.Any KeyRequestID (Value ctx KeyRequestID)]).
Proof.
  intros Hl. eexists. eexists.
  split; [apply (L_spec l o ctx w Hl)|].
  cbn [heap set_heap sinks zapLogger_ infoLogger_].
  split; [reflexivity|].
  split; [now apply lookup_app_l_Some|].
  split; [reflexivity|].
  split; [reflexivity|].
  split; [reflexivity|].
  assert (Hb : forall key, Value ctx key = VNil -> present ctx key = []).
  { intros key H. destruct (present_cases ctx key) as [[_ E]|[N _]];
      [exact E | contradiction]. }
  assert (Hp : forall key, Value ctx key <> VNil ->
                           present ctx key = [zap.Any key (Value ctx key)]).
  { intros key H. destruct (present_cases ctx key) as [[E _]|[_ E]];
      [contradiction | exact E]. }
  split; [unfold bound_fields; cbn [zapLogger_]; apply With_context|].
  split; [exact Hb|]. split; [exact Hp|].
  intros Hr Hu Hw. unfold bound_fields. cbn [zapLogger_].
  rewrite With_context. unfold ctx_fields.
  rewrite (Hp _ Hr), (Hb _ Hu), (Hb _ Hw). reflexivity.
Qed.

Lemma L_binds_present_keys_witness :
  exists w' new,
    zapLogger.L 0%nat [(VString "requestID", VString "req-1")] (world_of NewOptions)
    = (Ret 1%nat, w')
    /\ heap w' = heap (world_of NewOptions) ++ [new]
    /\ heap w' !! 0%nat = Some (object_of NewOptions)
    /\ bound_fields new = [zap.Any "requestID" (VString "req-1")].
Proof.
  destruct (L_binds_present_keys 0%nat (object_of NewOptions)
              [(VString "requestID", VString "req-1")] (world_of NewOptions)
              eq_refl)
    as (w' & new & HL & Hh & Ho & _ & _ & _ & _ & _ & _ & Hone).
  exists w', new. repeat split; try assumption.
  apply Hone; [discriminate | reflexivity | reflexivity].
Defined.

(** * Further properties of the code *)

(** ** Options.Validate, all cases *)

Lemma format_ok_iff o :
  ToLower (Format o) = consoleFormat \/ ToLower (Format o) = jsonFormat
  <-> fold_eq (Format o) "console" \/ fold_eq (Format o) "json".
Proof.
  split; (intros [H|H]; [left|right]); now apply ToLower_fold_eq.
Qed.

(** X1.  [Validate] has nothing to report exactly when the level is a
    recognized severity and the format is "console" or "json" up to case.
    No other field of the options is looked at. *)
Theorem Validate_nil_iff (o : Options) :
  Options.Validate o = []
  <-> recognized (Level o)
      /\ (fold_eq (Format o) "console" \/ fold_eq (Format o) "json").
Proof.
  rewrite Validate_app, <- format_ok_iff. unfold recognized.
  destruct (zapcore.UnmarshalText (Level o)) as [e|l];
    destruct (decide _) as [Hf|Hf]; cbn; split;
    try discriminate; try (intros [[l' Hl] H']; discriminate || tauto);
    intros _; split; eauto.
Qed.

(** X2.  When one check of [Validate] fails and the other passes, the
    result is the one error of the failing check; the format error carries
    the format as it was given, not lower-cased. *)
Theorem Validate_single_error (o : Options) :
  (~ recognized (Level o) ->
   fold_eq (Format o) "console" \/ fold_eq (Format o) "json" ->
   Options.Validate o = [Errorf "unrecognized level: %q" (Level o)])
  /\ (recognized (Level o) ->
      ~ fold_eq (Format o) "console" -> ~ fold_eq (Format o) "json" ->
      Options.Validate o = [Errorf "not a valid log format: %q" (Format o)]).
Proof.
  split.
  - intros Hl Hf. rewrite Validate_app, (UnmarshalText_error _ Hl).
    apply format_ok_iff in Hf.
    destruct (decide _); [reflexivity | contradiction].
  - intros [l Hl] Hc Hj. rewrite Validate_app, Hl.
    destruct (decide _) as [Hf|_]; [|reflexivity].
    apply format_ok_iff in Hf. tauto.
Qed.

Lemma Validate_single_error_witness :
  Options.Validate (opts_level "verbose")
  = [Errorf "unrecognized level: %q" "verbose"]
  /\ Options.Validate (opts_format "yaml")
     = [Errorf "not a valid log format: %q" "yaml"].
Proof.
  split.
  - apply (Validate_single_error (opts_level "verbose")).
    + intros [l H]. vm_compute in H. discriminate.
    + left. apply ToLower_fold_eq; reflexivity.
  - apply (Validate_single_error (opts_format "yaml")).
    + exists zapcore.InfoLevel. reflexivity.
    + intros H. apply ToLower_fold_eq in H; [discriminate | reflexivity].
    + intros H. apply ToLower_fold_eq in H; [discriminate | reflexivity].
Defined.

(** ** The level of the logger *)

Lemma lower_word_cons d t :
  lower_word (String d t) = true ->
  (97 <= N_of_ascii d <= 122)%N /\ lower_word t = true.
Proof.
  cbn [lower_word]. intros H.
  apply andb_prop in H as [H Ht]. apply andb_prop in H as [H1 H2].
  apply N.leb_le in H1, H2. auto.
Qed.

(** A string equal up to case to a word of small letters lower-cases to
    that word. *)
Lemma fold_eq_ToLower w :
  lower_word w = true -> forall s, fold_eq s w -> ToLower s = w.
Proof.
  induction w as [|d t IH]; intros Hw s H.
  - inversion H. reflexivity.
  - apply lower_word_cons in Hw as [Hd Ht].
    inversion H as [|c d' s' t' Hcd Hst]; subst.
    apply lower_byte_plain in Hcd; [|exact Hd].
    rewrite ToLower_cons_letter.
    + f_equal; [exact Hcd | now apply IH].
    + assert (Hn := N_of_lower_byte c). rewrite Hcd in Hn.
      destruct (is_upper_byte c); lia.
Qed.

(** A text the parser takes as it is gives the same level lower-cased. *)
Lemma unmarshalText_ToLower text l :
  zapcore.unmarshalText text = Some l ->
  zapcore.unmarshalText (ToLower text) = Some l.
Proof.
  unfold zapcore.unmarshalText at 1.
  repeat (destruct (decide _) as [H|_];
          [ intros [= <-]; (destruct H as [->|H]; [reflexivity|]);
            try (destruct H as [->| ->]; reflexivity); subst; reflexivity |]).
  discriminate.
Qed.

Lemma UnmarshalText_fold text name lvl :
  In (name, lvl) level_names -> fold_eq text name ->
  zapcore.UnmarshalText text = inr lvl.
Proof.
  intros Hin Hf.
  assert (Hl : ToLower text = name
               /\ zapcore.unmarshalText name = Some lvl).
  { cbn in Hin.
    repeat (destruct Hin as [[= <- <-]|Hin];
            [split; [apply fold_eq_ToLower; [reflexivity | exact Hf]
                    | reflexivity]|]).
    contradiction. }
  destruct Hl as [Hl Hn]. unfold zapcore.UnmarshalText.
  destruct (zapcore.unmarshalText text) as [l'|] eqn:E.
  - apply unmarshalText_ToLower in E. rewrite Hl in E. congruence.
  - rewrite Hl, Hn. reflexivity.
Qed.

(** X3.  The level text is read without regard to case: a text equal up
    to case to one of the seven level names gives that level as the
    threshold of the configuration, in [Build] and in [New] alike; a text
    that is not recognized gives Info. *)
Theorem zapLevel_of_name (o : Options) :
  (forall name lvl,
     In (name, lvl) level_names -> fold_eq (Level o) name ->
     zap.Level (Options.zapConfig o) = lvl
     /\ zap.Level (loggerConfig o) = lvl)
  /\ (~ recognized (Level o) ->
      zap.Level (Options.zapConfig o) = zapcore.InfoLevel
      /\ zap.Level (loggerConfig o) = zapcore.InfoLevel).
Proof.
  split.
  - intros name lvl Hin Hf. cbn.
    unfold Options.zapLevel, zap.NewAtomicLevelAt.
    rewrite (UnmarshalText_fold _ _ _ Hin Hf). split; reflexivity.
  - apply zapLevel_fallback.
Qed.

Lemma zapLevel_of_name_witness :
  zap.Level (Options.zapConfig opts_named) = zapcore.WarnLevel
  /\ zap.Level (loggerConfig opts_named) = zapcore.WarnLevel.
Proof.
  apply (proj1 (zapLevel_of_name opts_named) "warn" zapcore.WarnLevel).
  - cbn. tauto.
  - apply ToLower_fold_eq; reflexivity.
Defined.

(** ** Building the engine: Build, New, Init *)

Lemma Open_inr fs paths l :
  zap.Open fs paths = inr l ->
  l = paths /\ Forall (fun p => zap.opens fs p = true) paths.
Proof.
  revert l. induction paths as [|p ps IH]; intros l; cbn.
  - intros [= <-]. split; constructor.
  - destruct (zap.opens fs p) eqn:E; [|discriminate].
    destruct (zap.Open fs ps) as [e|l']; [discriminate|].
    intros [= <-]. destruct (IH l' eq_refl) as [-> HF].
    split; [reflexivity | now constructor].
Qed.

Lemma Open_all fs paths :
  Forall (fun p => zap.opens fs p = true) paths ->
  zap.Open fs paths = inr paths.
Proof.
  induction 1 as [|p ps Hp _ IH]; cbn; [reflexivity|].
  now rewrite Hp, IH.
Qed.

Lemma newEncoder_inr name e :
  zap.newEncoder name = inr e ->
  e = name /\ (name = "console" \/ name = "json").
Proof.
  unfold zap.newEncoder.
  destruct (decide (name = "")); [discriminate|].
  destruct (decide _) as [H|_]; [|discriminate].
  intros [= <-]. auto.
Qed.

Lemma newEncoder_known name :
  name = "console" \/ name = "json" -> zap.newEncoder name = inr name.
Proof.
  intros H. unfold zap.newEncoder.
  destruct (decide (name = "")) as [->|_]; [destruct H; discriminate|].
  destruct (decide _); [reflexivity | contradiction].
Qed.

(** The engine builds a logger from a configuration exactly when it knows
    the encoding and every path opens; the logger is then the one the
    configuration and the options describe. *)
Lemma zap_Build_spec fs cfg opts :
  let ok := (zap.Encoding cfg = "console" \/ zap.Encoding cfg = "json")
            /\ Forall (fun p => zap.opens fs p = true) (zap.OutputPaths cfg)
            /\ Forall (fun p => zap.opens fs p = true) (zap.ErrorOutputPaths cfg) in
  (ok ->
   zap.Build fs cfg opts
   = inr (zap.WithOptions
            (zap.New {| zapcore.enc := zap.Encoding cfg;
                        zapcore.encoderConfig := zap.EncoderConfig cfg;
                        zapcore.out := zap.OutputPaths cfg;
                        zapcore.LevelEnabler := zap.Level cfg;
                        zapcore.sampler := None;
                        zapcore.context := [] |}
                     (zap.buildOptions cfg (zap.ErrorOutputPaths cfg)))
            opts))
  /\ (~ ok -> exists err, zap.Build fs cfg opts = inl err).
Proof.
  cbv zeta. unfold zap.Build. split.
  - intros (He & Ho & Hr).
    now rewrite (newEncoder_known _ He), (Open_all _ _ Ho), (Open_all _ _ Hr).
  - intros Hn.
    destruct (zap.newEncoder _) as [e|enc] eqn:Ee; [eauto|].
    destruct (zap.Open fs (zap.OutputPaths cfg)) as [e|s] eqn:Eo; [eauto|].
    destruct (zap.Open fs (zap.ErrorOutputPaths cfg)) as [e|r] eqn:Er; [eauto|].
    exfalso. apply Hn.
    apply newEncoder_inr in Ee as [_ Ee].
    apply Open_inr in Eo as [_ Eo]. apply Open_inr in Er as [_ Er]. auto.
Qed.

(** X4.  [Build] never panics.  When the format names an encoder of the
    engine in its exact spelling and every sink opens, it returns nil,
    makes the new logger the engine's global logger and sends the standard
    library's log output to that logger under the name of the options;
    the new logger has the level of the options as its threshold.
    Otherwise it returns an error and changes nothing.  Neither way is
    anything written or any facade object touched. *)
Theorem Build_installs_or_reports fs (o : Options) (w : World) :
  (buildable fs o ->
   Options.Build fs o w
   = (Ret None,
      {| sinks := sinks w; heap := heap w; std := std w;
         globalL := Some (installed o);
         stdLog := Some (zap.Named (installed o) (Name o)) |})
   /\ zapcore.LevelEnabler (zap.core (installed o)) = Options.zapLevel o)
  /\ (~ buildable fs o ->
      exists err, Options.Build fs o w = (Ret (Some err), w)).
Proof.
  destruct (zap_Build_spec fs (Options.zapConfig o)
              [zap.AddStacktrace zapcore.PanicLevel]) as [Hok Hno].
  unfold Options.Build. split.
  - intros Hb. rewrite (Hok Hb). split; [reflexivity|].
    unfold installed, zap.buildOptions.
    cbn [zap.Development zap.DisableCaller zap.DisableStacktrace
         zap.Sampling Options.zapConfig].
    destruct (Development o), (DisableStacktrace o); reflexivity.
  - intros Hb. destruct (Hno Hb) as [err ->]. eauto.
Qed.

Lemma Build_installs_or_reports_witness :
  Options.Build log_file_only opts_named world0
  = (Ret None,
     {| sinks := []; heap := []; std := 0%nat;
        globalL := Some (installed opts_named);
        stdLog := Some (zap.Named (installed opts_named) "iam") |})
  /\ exists err, Options.Build only_std opts_named world0
                 = (Ret (Some err), world0).
Proof.
  destruct (Build_installs_or_reports log_file_only opts_named world0) as [H1 _].
  destruct (Build_installs_or_reports only_std opts_named world0) as [_ H2].
  split.
  - apply H1. repeat split; try (right; reflexivity);
      repeat constructor.
  - apply H2. intros (_ & Ho & _).
    inversion Ho as [|? ? _ Ht]. inversion Ht as [|? ? Hf _].
    vm_compute in Hf. discriminate.
Defined.

(** [New] on options: the logger is built and a new object made, or the
    engine's error is the panic value and nothing has changed. *)
Lemma New_spec fs o w :
  (buildable fs o ->
   New fs (Some o) w
   = (Ret (length (heap w)),
      {| sinks := sinks w;
         heap := heap w ++ [{| zapLogger_ := zap.Named (built o) (Name o);
                               infoLogger_ := {| level := zap.InfoLevel;
                                                 log := built o |} |}];
         std := std w; globalL := globalL w; stdLog := Some (built o) |}))
  /\ (~ buildable fs o ->
      exists err, New fs (Some o) w = (Panicked (PError err), w)).
Proof.
  destruct (zap_Build_spec fs (loggerConfig o)
              [zap.AddStacktrace zapcore.PanicLevel; zap.AddCallerSkip 1])
    as [Hok Hno].
  unfold New. split.
  - intros Hb. rewrite (Hok Hb). reflexivity.
  - intros Hb. destruct (Hno Hb) as [err ->]. eauto.
Qed.

Lemma buildable_NewOptions fs : buildable fs NewOptions.
Proof.
  repeat split; [left; reflexivity | |]; repeat constructor.
Qed.

(** X5.  [New] returns a new object at an unused address exactly when the
    engine can be built; it then also sends the standard library's log
    output to the new engine logger (the unnamed one), and writes
    nothing.  Otherwise it panics with the engine's error and changes
    nothing.  The level text never makes it panic.  [New(nil)] always
    returns, whatever paths open: the default sinks are the standard
    streams. *)
Theorem New_returns_or_panics fs (o : Options) (w : World) :
  (buildable fs o ->
   exists w',
     New fs (Some o) w = (Ret (length (heap w)), w')
     /\ heap w' = heap w ++ [{| zapLogger_ := zap.Named (built o) (Name o);
                                infoLogger_ := {| level := zap.InfoLevel;
                                                  log := built o |} |}]
     /\ zapcore.LevelEnabler (zap.core (built o)) = Options.zapLevel o
     /\ stdLog w' = Some (built o)
     /\ sinks w' = sinks w /\ std w' = std w /\ globalL w' = globalL w)
  /\ (~ buildable fs o ->
      exists err, New fs (Some o) w = (Panicked (PError err), w))
  /\ (exists w', New fs None w = (Ret (length (heap w)), w')
                 /\ heap w' = heap w ++ [object_of NewOptions]).
Proof.
  destruct (New_spec fs o w) as [Hok Hno].
  split; [|split; [exact Hno|]].
  - intros Hb. eexists. split; [apply (Hok Hb)|].
    cbn [heap sinks std globalL stdLog]. repeat split.
    unfold built, zap.buildOptions.
    cbn [zap.Development zap.DisableCaller zap.DisableStacktrace
         zap.Sampling loggerConfig].
    destruct (Development o), (DisableCaller o), (DisableStacktrace o);
      reflexivity.
  - destruct (New_spec fs NewOptions w) as [Hd _].
    eexists. split; [apply (Hd (buildable_NewOptions fs))|]. reflexivity.
Qed.

Lemma New_returns_or_panics_witness :
  (exists w',
     New log_file_only (Some opts_named) world0 = (Ret 0%nat, w')
     /\ heap w' = [{| zapLogger_ := zap.Named (built opts_named) "iam";
                      infoLogger_ := {| level := zap.InfoLevel;
                                        log := built opts_named |} |}]
     /\ zapcore.LevelEnabler (zap.core (built opts_named)) = zapcore.WarnLevel)
  /\ exists err,
       New only_std (Some (opts_format "Console")) world0
       = (Panicked (PError err), world0).
Proof.
  destruct (New_returns_or_panics log_file_only opts_named world0)
    as (H1 & _ & _).
  destruct (New_returns_or_panics only_std (opts_format "Console") world0)
    as (_ & H2 & _).
  split.
  - destruct H1 as (w' & HN & Hh & Hl & _).
    { repeat split; try (right; reflexivity); repeat constructor. }
    exists w'. repeat split; assumption.
  - apply H2. intros ([H|H] & _); discriminate.
Defined.

(** X6.  [Init] makes the new logger the package's default when the
    engine can be built: [std] becomes the address of the new object, and
    every object made before, the old default among them, stays as it
    was.  When the engine cannot be built, [Init] panics and the default
    is the one it was. *)
Theorem Init_replaces_std fs (o : Options) (w : World) :
  (buildable fs o ->
   exists w',
     Init fs (Some o) w = (Ret tt, w')
     /\ std w' = length (heap w)
     /\ heap w' !! std w'
        = Some {| zapLogger_ := zap.Named (built o) (Name o);
                  infoLogger_ := {| level := zap.InfoLevel; log := built o |} |}
     /\ (forall p x, heap w !! p = Some x -> heap w' !! p = Some x)
     /\ sinks w' = sinks w)
  /\ (~ buildable fs o ->
      exists err, Init fs (Some o) w = (Panicked (PError err), w)).
Proof.
  destruct (New_spec fs o w) as [Hok Hno]. unfold Init, bind. split.
  - intros Hb. rewrite (Hok Hb). eexists. split; [reflexivity|].
    cbn [std heap sinks]. split; [reflexivity|].
    split; [apply list_lookup_middle; reflexivity|].
    split; [|reflexivity].
    intros p x Hp. now apply lookup_app_l_Some.
  - intros Hb. destruct (Hno Hb) as [err ->]. eauto.
Qed.

Lemma Init_replaces_std_witness :
  (exists w',
     Init log_file_only (Some opts_named) (world_of NewOptions) = (Ret tt, w')
     /\ std w' = 1%nat
     /\ heap w' !! 0%nat = Some (object_of NewOptions))
  /\ exists err,
       Init only_std (Some opts_named) (world_of NewOptions)
       = (Panicked (PError err), world_of NewOptions).
Proof.
  destruct (Init_replaces_std log_file_only opts_named (world_of NewOptions))
    as [H1 _].
  destruct (Init_replaces_std only_std opts_named (world_of NewOptions))
    as [_ H2].
  split.
  - destruct H1 as (w' & HI & Hs & _ & Hold & _).
    { repeat split; try (right; reflexivity); repeat constructor. }
    exists w'. split; [exact HI|]. split; [exact Hs|].
    apply Hold. reflexivity.
  - apply H2. intros (_ & Ho & _).
    inversion Ho as [|? ? _ Ht]. inversion Ht as [|? ? Hf _].
    vm_compute in Hf. discriminate.
Defined.

(** ** handleFields, further *)

Lemma split_pairs_app pairs args :
  split_pairs (flat pairs ++ args)
  = (pairs ++ fst (split_pairs args), snd (split_pairs args)).
Proof.
  induction pairs as [|[k v] ps IH].
  - cbn. now destruct (split_pairs args).
  - change (flat ((k, v) :: ps) ++ args)
      with (VString k :: v :: (flat ps ++ args)).
    cbn [split_pairs]. now rewrite IH.
Qed.

Lemma fields_of_app a b : fields_of (a ++ b) = fields_of a ++ fields_of b.
Proof. apply map_app. Qed.

Lemma fields_of_length pairs : length (fields_of pairs) = length pairs.
Proof. apply length_map. Qed.

(** X7.  On a list of string-keyed pairs, the empty list among them,
    [handleFields] returns one field per pair, in order, then the
    additional fields, and does nothing else: no diagnostic, no panic,
    whatever the mode of the engine. *)
Theorem handleFields_pairs l (pairs : list (string * any)) additional w :
  handleFields l (flat pairs) additional w
  = (Ret (fields_of pairs ++ additional), w).
Proof.
  rewrite handleFields_spec.
  rewrite <- (app_nil_r (flat pairs)).
  rewrite (split_pairs_unique pairs []) by constructor. reflexivity.
Qed.

(** X8.  [handleFields] never ends the process, and panics only when the
    engine is in development mode and the list is not all string-keyed
    pairs.  When it returns, it has changed no facade object, and the
    fields are at most [len(args)/2 + len(additional)]: the capacity the
    slice is made with is never exceeded. *)
Theorem handleFields_outcome l (args : list any) additional w :
  match handleFields l args additional w with
  | (Ret fields, w') =>
      (length fields <= length args / 2 + length additional)%nat
      /\ heap w' = heap w
  | (Panicked _, _) =>
      zap.development l = true /\ forall pairs, args <> flat pairs
  | (Exited _, _) => False
  end.
Proof.
  rewrite handleFields_spec.
  pose proof (split_pairs_flat args) as Hflat.
  assert (Hlen : (length (fields_of (fst (split_pairs args)) ++ additional)
                  <= length args / 2 + length additional)%nat).
  { rewrite length_app, fields_of_length.
    apply Nat.add_le_mono_r. apply Nat.div_le_lower_bound; [lia|].
    rewrite Hflat at 2. rewrite length_app, flat_length. lia. }
  destruct (diagnostic (snd (split_pairs args))) as [[msg f]|] eqn:Ed.
  - unfold bind. rewrite DPanic_spec.
    destruct (zap.development l) eqn:Edev.
    + split; [reflexivity|]. intros pairs ->.
      rewrite <- (app_nil_r (flat pairs)) in Ed.
      rewrite (split_pairs_unique pairs []) in Ed by constructor.
      discriminate.
    + split; [exact Hlen | reflexivity].
  - split; [exact Hlen | reflexivity].
Qed.

(** X9.  Leading string-keyed pairs pass through: converting a list that
    starts with such pairs is converting what follows them and putting the
    fields of the pairs in front; diagnostics, panic and all other
    effects are those of the rest. *)
Theorem handleFields_after_pairs l (pairs : list (string * any)) args additional w :
  handleFields l (flat pairs ++ args) additional w
  = match handleFields l args additional w with
    | (Ret fields, w') => (Ret (fields_of pairs ++ fields), w')
    | other => other
    end.
Proof.
  rewrite !handleFields_spec, split_pairs_app. cbn [fst snd].
  rewrite fields_of_app, <- app_assoc.
  destruct (diagnostic _) as [[msg f]|]; [|reflexivity].
  unfold bind. rewrite DPanic_spec.
  destruct (zap.development l); reflexivity.
Qed.

(** X10.  On string-keyed pairs the key/value call is the structured
    call with the fields of the pairs, on every logger and in every
    state, enabled or not. *)
Theorem Infow_pairs_is_Info (l : infoLogger) msg (pairs : list (string * any)) w :
  infoLogger.Infow l msg (flat pairs) w
  = infoLogger.Info l msg (fields_of pairs) w.
Proof.
  unfold infoLogger.Infow, infoLogger.Info.
  destruct (zap.Check (log l) (level l) msg) as [ce|]; [|reflexivity].
  unfold bind. rewrite handleFields_pairs, app_nil_r. reflexivity.
Qed.

(** ** The leveled methods *)

Lemma set_sinks_same w : set_sinks (sinks w) w = w.
Proof. now destruct w. Qed.

Lemma leveled_spec lvl l o msg fields w :
  heap w !! l = Some o ->
  (o' <- deref l ;; engine (zap.logAt lvl (zapLogger_ o') msg fields)) w
  = (terminal (zapLogger_ o) lvl msg,
     set_sinks (sinks w ++ if zapcore.Core_Enabled (zap.core (zapLogger_ o)) lvl
                           then [line_of (zapLogger_ o) lvl msg fields]
                           else []) w).
Proof.
  intros Hl. unfold bind, deref. rewrite Hl. unfold engine.
  now rewrite logAt_spec.
Qed.





Lemma V_Info_below_DPanic lvl l o msg fields w :
  heap w !! l = Some o ->
  -128 <= lvl < zapcore.DPanicLevel ->
  (il <- zapLogger.V l lvl ;; Info il msg fields) w
  = (o' <- deref l ;; engine (zap.logAt lvl (zapLogger_ o') msg fields)) w.
Proof.
  intros Hl Hlvl. rewrite (leveled_spec _ l o msg fields w Hl).
  unfold zapcore.DPanicLevel in Hlvl.
  unfold zapLogger.V, bind, deref. rewrite Hl.
  rewrite Level_of_int_int8 by lia. unfold zap.Core.
  destruct (zapcore.Core_Enabled (zap.core (zapLogger_ o)) lvl) eqn:En.
  - unfold ret. cbn [Info InfoLogger_methods infoLogger_methods].
    apply infoLogger_Info_enabled. exact En.
  - cbn. rewrite app_nil_r, set_sinks_same.
    unfold terminal, zapcore.PanicLevel, zapcore.FatalLevel, zapcore.DPanicLevel.
    destruct (Z.eqb_spec lvl 4); [lia|]. destruct (Z.eqb_spec lvl 5); [lia|].
    destruct (Z.eqb_spec lvl 3); [lia|]. reflexivity.
Qed.

(** X13.  Logging through [V] at one of the levels -1, 0, 1, 2 is
    logging with the method of that level: [V(-1).Info] is [Debug],
    [V(0).Info] is [Info], [V(1).Info] is [Warn] and [V(2).Info] is
    [Error], in what is written and in what is returned, whatever the
    threshold. *)
Theorem V_Info_is_leveled_method (l : loc) (o : zapLogger) msg fields w :
  heap w !! l = Some o ->
  (il <- zapLogger.V l (-1) ;; Info il msg fields) w
  = zapLogger.Debug l msg fields w
  /\ (il <- zapLogger.V l 0 ;; Info il msg fields) w
     = zapLogger.Info l msg fields w
  /\ (il <- zapLogger.V l 1 ;; Info il msg fields) w
     = zapLogger.Warn l msg fields w
  /\ (il <- zapLogger.V l 2 ;; Info il msg fields) w
     = zapLogger.Error l msg fields w.
Proof.
  intros Hl.
  split; [apply (V_Info_below_DPanic (-1) l o msg fields w Hl);
          unfold zapcore.DPanicLevel; lia|].
  split; [apply (V_Info_below_DPanic 0 l o msg fields w Hl);
          unfold zapcore.DPanicLevel; lia|].
  split; [apply (V_Info_below_DPanic 1 l o msg fields w Hl);
          unfold zapcore.DPanicLevel; lia|].
  apply (V_Info_below_DPanic 2 l o msg fields w Hl);
    unfold zapcore.DPanicLevel; lia.
Qed.

Lemma V_Info_is_leveled_method_witness :
  (il <- zapLogger.V 0%nat 1 ;; Info il "w" []) (world_of NewOptions)
  = zapLogger.Warn 0%nat "w" [] (world_of NewOptions).
Proof.
  exact (proj1 (proj2 (proj2
           (V_Info_is_leveled_method 0%nat (object_of NewOptions) "w" []
              (world_of NewOptions) eq_refl)))).
Defined.

(** ** Derived loggers, composed *)

Lemma append_assoc (a b c : string) : (a +:+ b) +:+ c = a +:+ b +:+ c.
Proof.
  induction a as [|x a IH]; [reflexivity|].
  change (String x ((a +:+ b) +:+ c) = String x (a +:+ b +:+ c)).
  now f_equal.
Qed.

Lemma append_nonempty (a b : string) : a <> "" -> a +:+ b <> "".
Proof. destruct a; [congruence | discriminate]. Qed.

Lemma Named_name g s :
  zap.name (zap.Named g s) = if decide (s = "") then zap.name g
                             else joined (zap.name g) s.
Proof.
  unfold zap.Named, joined. destruct (decide (s = "")); reflexivity.
Qed.

(** Naming twice is naming once with the two names joined by a dot. *)
Lemma Named_Named g a b :
  a <> "" -> b <> "" ->
  zap.Named (zap.Named g a) b = zap.Named g (a +:+ "." +:+ b).
Proof.
  intros Ha Hb. unfold zap.Named.
  destruct (decide (a = "")) as [|_]; [contradiction|].
  destruct (decide (b = "")) as [|_]; [contradiction|].
  destruct (decide (a +:+ "." +:+ b = "")) as [E|_];
    [now apply append_nonempty in E|].
  cbn [zap.core zap.development zap.addCaller zap.name zap.errorOutput
       zap.addStack zap.callerSkip].
  f_equal.
  destruct (decide (zap.name g = "")) as [_|Hn].
  - destruct (decide (a = "")); [contradiction | reflexivity].
  - destruct (decide (zap.name g +:+ "." +:+ a = "")) as [E|_];
      [now apply append_nonempty in E|].
    now rewrite append_assoc.
Qed.

(** Naming and binding fields do not depend on their order. *)
Lemma Named_With g s fields :
  zap.Named (zap.With g fields) s = zap.With (zap.Named g s) fields.
Proof.
  unfold zap.Named. destruct (decide (s = "")); [reflexivity|].
  destruct fields; reflexivity.
Qed.

Lemma WithName_spec l o s w :
  heap w !! l = Some o ->
  zapLogger.WithName l s w
  = (Ret (length (heap w)),
     set_heap (heap w ++ [wrapped (zap.Named (zapLogger_ o) s)]) w).
Proof.
  intros Hl. unfold zapLogger.WithName, bind, deref. now rewrite Hl.
Qed.

Lemma WithValues_pairs_spec l o pairs w :
  heap w !! l = Some o ->
  zapLogger.WithValues l (flat pairs) w
  = (Ret (length (heap w)),
     set_heap (heap w ++ [wrapped (zap.With (zapLogger_ o) (fields_of pairs))]) w).
Proof.
  intros Hl. unfold zapLogger.WithValues, bind, deref. rewrite Hl.
  rewrite handleFields_pairs, app_nil_r. reflexivity.
Qed.

Lemma lookup_last_alloc (h : list zapLogger) x w :
  heap (set_heap (h ++ [x]) w) !! length h = Some x.
Proof. cbn [heap set_heap]. now apply list_lookup_middle. Qed.

(** X14.  [WithName] makes a new object whose engine logger carries the
    name joined to the receiver's by a dot, and leaves fields, threshold
    and every other object alone; the empty name changes no name.
    [WithName(a).WithName(b)], for non-empty names, ends in the same
    logger as [WithName] of [a], a dot and [b]. *)
Theorem WithName_joins_names (l : loc) (o : zapLogger) (a b : string) w :
  heap w !! l = Some o ->
  a <> "" -> b <> "" ->
  let g := zapLogger_ o in
  zapLogger.WithName l a w
  = (Ret (length (heap w)),
     set_heap (heap w ++ [wrapped (zap.Named g a)]) w)
  /\ zap.name (zap.Named g a) = joined (zap.name g) a
  /\ zap.core (zap.Named g a) = zap.core g
  /\ zap.Named g "" = g
  /\ (p <- zapLogger.WithName l a ;; zapLogger.WithName p b) w
     = (Ret (S (length (heap w))),
        set_heap (heap w ++ [wrapped (zap.Named g a);
                             wrapped (zap.Named g (a +:+ "." +:+ b))]) w).
Proof.
  intros Hl Ha Hb g.
  split; [apply (WithName_spec l o a w Hl)|].
  split; [rewrite Named_name; destruct (decide (a = ""));
          [contradiction | reflexivity]|].
  split; [unfold zap.Named; destruct (decide (a = "")); reflexivity|].
  split; [reflexivity|].
  unfold bind. rewrite (WithName_spec l o a w Hl).
  rewrite (WithName_spec _ (wrapped (zap.Named g a)))
    by apply lookup_last_alloc.
  cbn [heap set_heap zapLogger_ wrapped].
  rewrite (Named_Named g a b Ha Hb), length_app, <- app_assoc.
  cbn [length app]. rewrite Nat.add_1_r. reflexivity.
Qed.

Lemma WithName_joins_names_witness :
  (p <- zapLogger.WithName 0%nat "NewLog" ;; zapLogger.WithName p "sub")
    (world_of NewOptions)
  = (Ret 2%nat,
     set_heap (heap (world_of NewOptions)
               ++ [wrapped (zap.Named (built NewOptions) "NewLog");
                   wrapped (zap.Named (built NewOptions) "NewLog.sub")])
       (world_of NewOptions))
  /\ zap.name (zap.Named (built NewOptions) "NewLog.sub") = "NewLog.sub".
Proof.
  destruct (WithName_joins_names 0%nat (object_of NewOptions) "NewLog" "sub"
              (world_of NewOptions) eq_refl) as (_ & _ & _ & _ & H);
    [discriminate | discriminate |].
  split; [exact H | reflexivity].
Defined.

(** X15.  Naming a logger and binding string-keyed pairs to it can be
    done in either order: both orders end in an object with the same
    engine logger, and neither writes anything. *)
Theorem WithName_WithValues_commute (l : loc) (o : zapLogger) (s : string)
    (pairs : list (string * any)) w :
  heap w !! l = Some o ->
  let g := zapLogger_ o in
  let last := wrapped (zap.With (zap.Named g s) (fields_of pairs)) in
  (p <- zapLogger.WithName l s ;; zapLogger.WithValues p (flat pairs)) w
  = (Ret (S (length (heap w))),
     set_heap (heap w ++ [wrapped (zap.Named g s); last]) w)
  /\ (p <- zapLogger.WithValues l (flat pairs) ;; zapLogger.WithName p s) w
     = (Ret (S (length (heap w))),
        set_heap (heap w ++ [wrapped (zap.With g (fields_of pairs)); last]) w).
Proof.
  intros Hl g last. unfold bind. split.
  - rewrite (WithName_spec l o s w Hl).
    rewrite (WithValues_pairs_spec _ (wrapped (zap.Named g s)))
      by apply lookup_last_alloc.
    cbn [heap set_heap zapLogger_ wrapped].
    rewrite length_app, <- app_assoc. cbn [length app].
    rewrite Nat.add_1_r. reflexivity.
  - rewrite (WithValues_pairs_spec l o pairs w Hl).
    rewrite (WithName_spec _ (wrapped (zap.With g (fields_of pairs))))
      by apply lookup_last_alloc.
    cbn [heap set_heap zapLogger_ wrapped].
    rewrite Named_With, length_app, <- app_assoc. cbn [length app].
    rewrite Nat.add_1_r. reflexivity.
Qed.

Lemma WithName_WithValues_commute_witness :
  (p <- zapLogger.WithName 0%nat "NewLog" ;;
   zapLogger.WithValues p [VString "key"; VString "value"])
    (world_of NewOptions)
  = (Ret 2%nat,
     set_heap (heap (world_of NewOptions)
               ++ [wrapped (zap.Named (built NewOptions) "NewLog");
                   wrapped (zap.With (zap.Named (built NewOptions) "NewLog")
                              [zap.Any "key" (VString "value")])])
       (world_of NewOptions)).
Proof.
  apply (WithName_WithValues_commute 0%nat (object_of NewOptions) "NewLog"
           [("key", VString "value")] (world_of NewOptions) eq_refl).
Defined.

(** X16.  Binding string-keyed pairs in two calls is binding them in one:
    [WithValues(kv1...).WithValues(kv2...)] ends in an object with the
    same engine logger as [WithValues(kv1..., kv2...)], the fields in the
    order given.  With no pairs at all, [WithValues] still makes a new
    object, on the receiver's engine logger as it is. *)
Theorem WithValues_twice_is_once (l : loc) (o : zapLogger)
    (pairs1 pairs2 : list (string * any)) w :
  heap w !! l = Some o ->
  let g := zapLogger_ o in
  (p <- zapLogger.WithValues l (flat pairs1) ;;
   zapLogger.WithValues p (flat pairs2)) w
  = (Ret (S (length (heap w))),
     set_heap (heap w ++ [wrapped (zap.With g (fields_of pairs1));
                          wrapped (zap.With g (fields_of (pairs1 ++ pairs2)))]) w)
  /\ zapLogger.WithValues l (flat (pairs1 ++ pairs2)) w
     = (Ret (length (heap w)),
        set_heap (heap w ++ [wrapped (zap.With g (fields_of (pairs1 ++ pairs2)))]) w)
  /\ zapLogger.WithValues l [] w
     = (Ret (length (heap w)), set_heap (heap w ++ [wrapped g]) w).
Proof.
  intros Hl g. unfold bind. split; [|split].
  - rewrite (WithValues_pairs_spec l o pairs1 w Hl).
    rewrite (WithValues_pairs_spec _ (wrapped (zap.With g (fields_of pairs1))))
      by apply lookup_last_alloc.
    cbn [heap set_heap zapLogger_ wrapped].
    rewrite With_With, <- fields_of_app, length_app, <- app_assoc.
    cbn [length app]. rewrite Nat.add_1_r. reflexivity.
  - apply (WithValues_pairs_spec l o (pairs1 ++ pairs2) w Hl).
  - apply (WithValues_pairs_spec l o [] w Hl).
Qed.

Lemma WithValues_twice_is_once_witness :
  (p <- zapLogger.WithValues 0%nat [VString "k"; VString "v"] ;;
   zapLogger.WithValues p [VString "k2"; VString "v2"]) (world_of NewOptions)
  = (Ret 2%nat,
     set_heap (heap (world_of NewOptions)
               ++ [wrapped (zap.With (built NewOptions) [zap.Any "k" (VString "v")]);
                   wrapped (zap.With (built NewOptions)
                              [zap.Any "k" (VString "v");
                               zap.Any "k2" (VString "v2")])])
       (world_of NewOptions)).
Proof.
  apply (WithValues_twice_is_once 0%nat (object_of NewOptions)
           [("k", VString "v")] [("k2", VString "v2")]
           (world_of NewOptions) eq_refl).
Defined.

(** X17.  [L] does not look at what is bound already: deriving from a
    derived logger binds the fields of the second context after those of
    the first, so the same context twice gives every field twice.  Both
    clones are new objects, and the receiver is as it was. *)
Theorem L_twice_binds_twice (l : loc) (o : zapLogger) (ctx1 ctx2 : Context) w :
  heap w !! l = Some o ->
  exists c1 c2,
    (p <- zapLogger.L l ctx1 ;; zapLogger.L p ctx2) w
    = (Ret (S (length (heap w))), set_heap (heap w ++ [c1; c2]) w)
    /\ bound_fields c1 = bound_fields o ++ ctx_fields ctx1
    /\ bound_fields c2 = bound_fields o ++ ctx_fields ctx1 ++ ctx_fields ctx2
    /\ infoLogger_ c2 = infoLogger_ o
    /\ zap.name (zapLogger_ c2) = zap.name (zapLogger_ o).
Proof.
  intros Hl. eexists. eexists. split.
  - unfold bind. rewrite (L_spec l o ctx1 w Hl).
    rewrite (L_spec (length (heap w)) _ ctx2) by apply lookup_last_alloc.
    cbn [heap set_heap zapLogger_ infoLogger_].
    rewrite With_With, length_app, <- app_assoc. cbn [length app].
    rewrite Nat.add_1_r. reflexivity.
  - unfold bound_fields. cbn [zapLogger_ infoLogger_].
    rewrite !With_context.
    repeat split.
    destruct (ctx_fields ctx1 ++ ctx_fields ctx2); reflexivity.
Qed.

Lemma L_twice_binds_twice_witness :
  exists c1 c2,
    (p <- zapLogger.L 0%nat [(VString "username", VString "colin")] ;;
     zapLogger.L p [(VString "username", VString "colin")]) (world_of NewOptions)
    = (Ret 2%nat, set_heap (heap (world_of NewOptions) ++ [c1; c2])
                    (world_of NewOptions))
    /\ bound_fields c2 = [zap.Any "username" (VString "colin");
                          zap.Any "username" (VString "colin")].
Proof.
  destruct (L_twice_binds_twice 0%nat (object_of NewOptions)
              [(VString "username", VString "colin")]
              [(VString "username", VString "colin")]
              (world_of NewOptions) eq_refl)
    as (c1 & c2 & H & _ & Hb & _).
  exists c1, c2. split; [exact H | exact Hb].
Defined.

(** ** zapLogger.V, further *)

Lemma Level_of_int_periodic n k :
  zapcore.Level_of_int (n + 256 * k) = zapcore.Level_of_int n.
Proof.
  unfold zapcore.Level_of_int.
  replace (n + 256 * k + 128) with (n + 128 + k * 256) by lia.
  now rewrite Z.mod_add by lia.
Qed.

Lemma V_spec l o n w :
  heap w !! l = Some o ->
  zapLogger.V l n w
  = (Ret (if zapcore.LevelEnabler (zap.core (zapLogger_ o))
             <=? zapcore.Level_of_int n
          then ptr_infoLogger {| level := zapcore.Level_of_int n;
                                 log := zapLogger_ o |}
          else disabledInfoLogger), w).
Proof.
  intros Hl. unfold zapLogger.V, bind, deref. rewrite Hl.
  unfold zap.Core, zapcore.Core_Enabled, zapcore.Enabled.
  destruct (_ <=? _); reflexivity.
Qed.

(** X18.  [V] sees its argument modulo 256 only: [V(n + 256 k)] is
    [V(n)].  Within -128 to 127 the levels nest: when [V(n)] is an
    enabled logger, so is [V(m)] for every [m] from [n] up. *)
Theorem V_wraps_and_nests (l : loc) (o : zapLogger) (n m k : Z) w :
  zapLogger.V l (n + 256 * k) w = zapLogger.V l n w
  /\ (heap w !! l = Some o ->
      -128 <= n <= m -> m <= 127 ->
      zapLogger.V l n w
      = (Ret (ptr_infoLogger {| level := n; log := zapLogger_ o |}), w) ->
      zapLogger.V l m w
      = (Ret (ptr_infoLogger {| level := m; log := zapLogger_ o |}), w)).
Proof.
  split.
  - unfold zapLogger.V. now rewrite Level_of_int_periodic.
  - intros Hl Hn Hm. rewrite !(V_spec l o _ w Hl).
    rewrite !Level_of_int_int8 by lia.
    destruct (Z.leb_spec (zapcore.LevelEnabler (zap.core (zapLogger_ o))) n);
      [|discriminate].
    intros _.
    destruct (Z.leb_spec (zapcore.LevelEnabler (zap.core (zapLogger_ o))) m);
      [reflexivity | lia].
Qed.

Lemma V_wraps_and_nests_witness :
  zapLogger.V 0%nat 261 (world_of NewOptions)
  = zapLogger.V 0%nat 5 (world_of NewOptions)
  /\ zapLogger.V 0%nat 5 (world_of NewOptions)
     = (Ret (ptr_infoLogger {| level := 5; log := built NewOptions |}),
        world_of NewOptions).
Proof.
  destruct (V_wraps_and_nests 0%nat (object_of NewOptions) 5 5 1
              (world_of NewOptions)) as [H1 _].
  destruct (V_wraps_and_nests 0%nat (object_of NewOptions) 0 5 0
              (world_of NewOptions)) as [_ H2].
  split; [exact H1|].
  apply H2; [reflexivity | lia | lia | vm_compute; reflexivity].
Defined.

(** ** example/version/main.go *)

(** X19.  [main] prints exactly when the first argument after the program
    name is "version", in that spelling; it then prints the three lines of
    version, build time and Go version, whatever the program name and the
    arguments after the first are.  In every other case, no argument at
    all among them, it prints nothing. *)
Theorem main_prints_on_version (Args : list string) (Version BuildTime GoVersion : string) :
  (main Args Version BuildTime GoVersion <> ""
   <-> exists name rest, Args = name :: "version" :: rest)
  /\ (forall name rest,
        main (name :: "version" :: rest) Version BuildTime GoVersion
        = "Version:" +:+ Version +:+ newline
          +:+ "Build Time:" +:+ BuildTime +:+ newline
          +:+ "Go Version:" +:+ GoVersion +:+ newline).
Proof.
  assert (Hv : forall name rest,
             main (name :: "version" :: rest) Version BuildTime GoVersion
             = "Version:" +:+ Version +:+ newline
               +:+ "Build Time:" +:+ BuildTime +:+ newline
               +:+ "Go Version:" +:+ GoVersion +:+ newline).
  { intros name rest. unfold main.
    rewrite bool_decide_true by (cbn [length]; lia).
    rewrite bool_decide_true by reflexivity. reflexivity. }
  split; [|exact Hv].
  split.
  - intros Hne. unfold main in Hne.
    destruct (bool_decide (1 < length Args)%nat
              && bool_decide (Args !! 1%nat = Some "version")) eqn:E;
      [|congruence].
    apply andb_prop in E as [_ E]. apply bool_decide_eq_true in E.
    destruct Args as [|name [|a rest]]; try discriminate.
    cbn in E. injection E as ->. eauto.
  - intros (name & rest & ->). rewrite Hv. discriminate.
Qed.

(** ** Stack traces *)

(** X20.  The disable-stacktrace flag changes nothing in the logger that
    [Build] installs or that [New] makes: the option
    [AddStacktrace(PanicLevel)] that both pass to the engine is applied
    after those derived from the configuration, so stack traces are taken
    from Panic up whether the flag is set or not. *)
Theorem DisableStacktrace_has_no_effect (b : bool) (o : Options) :
  installed (with_DisableStacktrace b o) = installed o
  /\ built (with_DisableStacktrace b o) = built o
  /\ zap.addStack (installed o) = zapcore.PanicLevel
  /\ zap.addStack (built o) = zapcore.PanicLevel.
Proof.
  unfold installed, built, zap.buildOptions.
  cbn [zap.Development zap.DisableCaller zap.DisableStacktrace zap.Sampling
       zap.EncoderConfig Options.zapConfig loggerConfig with_DisableStacktrace
       OutputPaths ErrorOutputPaths Format Development DisableCaller
       DisableStacktrace].
  unfold Options.zapLevel, Options.encodeLevel.
  cbn [Level Format EnableColor with_DisableStacktrace].
  destruct b, (Development o), (DisableCaller o), (DisableStacktrace o);
    repeat split.
Qed.
